(* Shallow embedding of the Myack RPC core (myack/exc.py, myack/rpc/api.py,
   myack/rpc/transport.py) and proofs of its specified properties. *)

From Stdlib Require Import List String Ascii ZArith Bool Lia.
From Stdlib Require Import Sorting.Sorted Sorting.Permutation.
Import ListNotations.
Local Open Scope string_scope.
#[local] Set Warnings "-register-all".

(* ------------------------------------------------------------------------- *)
(** * Python values and dictionaries                                          *)
(* ------------------------------------------------------------------------- *)

(** Python dicts preserve insertion order; they are association lists with
    unique keys here.  [dict_set] is [d[k] = v]: an existing key keeps its
    position, a new key is appended. *)
Definition Dict (V : Type) := list (string * V).

Fixpoint dict_get {V} (d : Dict V) (k : string) : option V :=
  match d with
  | [] => None
  | (k', v) :: d' => if String.eqb k k' then Some v else dict_get d' k
  end.

Fixpoint dict_set {V} (d : Dict V) (k : string) (v : V) : Dict V :=
  match d with
  | [] => [(k, v)]
  | (k', v') :: d' =>
      if String.eqb k k' then (k', v) :: d' else (k', v') :: dict_set d' k v
  end.

(** [d.update(e)] and [dict(d, **e)]: the items of [e] are set in order. *)
Definition dict_update {V} (d e : Dict V) : Dict V :=
  fold_left (fun acc kv => dict_set acc (fst kv) (snd kv)) e d.

Definition dict_has {V} (d : Dict V) (k : string) : bool :=
  match dict_get d k with Some _ => true | None => false end.

(** Python [==] on dicts ignores insertion order. *)
Definition dict_equiv {V} (d1 d2 : Dict V) : Prop :=
  forall k, dict_get d1 k = dict_get d2 k.

(** Dynamic values carried in params, meta, results and exception data.
    [VOpaque] is an object the codec has no dumper for; [VCustom] is a
    user [Serializable] whose [dump()] either raises (an exception given by
    its MRO class names) or returns a value. *)
Inductive Value : Type :=
| VNone
| VBool (b : bool)
| VInt (z : Z)
| VStr (s : string)
| VTuple (xs : list Value)
| VList (xs : list Value)
| VDict (kvs : list (string * Value))
| VOpaque (n : nat)
| VCustom (dumped : sum (list string) Value).

(* ------------------------------------------------------------------------- *)
(** * Exceptions (myack/exc.py)                                              *)
(* ------------------------------------------------------------------------- *)

Module Exc.

(** A [BaseExc] subclass.  [cls_mro] lists the ids of the class and of its
    coded ancestors (for [isinstance]); [cls_chain] the short codes given to
    [__init_subclass__] along the declared subclass chain; [cls_code] the
    class attribute [code]; [cls_message] the (inherited) class attribute
    [message]. *)
Record ExcClass : Type := mkClass {
  cls_id : nat;
  cls_mro : list nat;
  cls_chain : list string;
  cls_code : string;
  cls_message : option string
}.

(** Python exceptions as they reach an [except] clause:
    a [BaseExc] instance ([args] = (code, message, data)); any other
    [Exception] (its class MRO, by name, and [str(e)]); a cancellation; and a
    [BaseException] that is not an [Exception] ([SystemExit],
    [KeyboardInterrupt], [GeneratorExit]). *)
Inductive PyExc : Type :=
| ECoded (c : ExcClass) (message : option string) (data : Dict Value)
| EPlain (mro : list string) (text : string)
| ECancelled
| EBaseOnly (name : string).

Definition type_error : PyExc := EPlain ["TypeError"; "Exception"] "".
Definition value_error : PyExc := EPlain ["ValueError"; "Exception"] "".
Definition assertion_error : PyExc := EPlain ["AssertionError"; "Exception"] "".
Definition key_error : PyExc := EPlain ["KeyError"; "LookupError"; "Exception"] "".

(** Result of a Python call: a value or a raised exception. *)
Inductive PyResult (A : Type) : Type :=
| Ok (a : A)
| Raise (e : PyExc).
Arguments Ok {A} a.
Arguments Raise {A} e.

Definition Registry := Dict ExcClass.

(** Class body of [__init_subclass__]: [cls.code] is the parent's code
    joined with the short code, or the short code when the parent
    ([BaseExc] itself) has no [code]; [message] is inherited unless the
    class body sets it. *)
Definition mk_class (parent : option ExcClass) (short : string) (id : nat)
    (message : option string) : ExcClass :=
  match parent with
  | None => mkClass id [id] [short] short message
  | Some p =>
      mkClass id (id :: cls_mro p) (app (cls_chain p) [short])
        (cls_code p ++ "." ++ short)
        (match message with Some m => Some m | None => cls_message p end)
  end.

(** Defining [class C(parent, code=short)]: the assertion refuses a code
    already in [BaseExc.registry]; otherwise the class is registered. *)
Definition define_class (reg : Registry) (parent : option ExcClass)
    (short : string) (id : nat) (message : option string)
    : PyResult (ExcClass * Registry) :=
  let c := mk_class parent short id message in
  if dict_has reg (cls_code c) then Raise assertion_error
  else Ok (c, dict_set reg (cls_code c) c).

(** [message or self.message] on an optional string. *)
Definition py_or (m d : option string) : option string :=
  match m with
  | Some s => if String.eqb s "" then d else Some s
  | None => d
  end.

(** Body of [BaseExc.__init__(self, message=None, **data)]. *)
Definition exc_init (c : ExcClass) (message : option string) (data : Dict Value)
    : PyResult PyExc :=
  match py_or message (cls_message c) with
  | None => Raise assertion_error
  | Some m => Ok (ECoded c (Some m) data)
  end.

(** The call [cls(message, **data)]: a keyword that names a parameter bound
    already ([self], or [message] given positionally) is a [TypeError]. *)
Definition init_call (c : ExcClass) (message : option string) (kwargs : Dict Value)
    : PyResult PyExc :=
  if dict_has kwargs "self" || dict_has kwargs "message" then Raise type_error
  else exc_init c message kwargs.

Definition opt_str (m : option string) : Value :=
  match m with Some s => VStr s | None => VNone end.

(** [class UndefinedExc(BaseExc, code="undefined")]. *)
Definition undefined_exc : ExcClass :=
  mk_class None "undefined" 1 (Some "Undefined exception").

(** The call [BaseExc.dispatch(code, message, **data)] of the classmethod
    [dispatch(cls, code, message=None, **data)]. *)
Definition dispatch_call (reg : Registry) (code : string) (message : option string)
    (kwargs : Dict Value) : PyResult PyExc :=
  if dict_has kwargs "cls" || dict_has kwargs "code" || dict_has kwargs "message"
  then Raise type_error
  else
    match dict_get reg code with
    | Some c => init_call c message kwargs
    | None =>
        init_call undefined_exc None
          [("original", VDict [("code", VStr code); ("message", opt_str message);
                               ("data", VDict kwargs)])]
    end.

(** [dump()]. *)
Definition dump (e : PyExc) : option (string * option string * Dict Value) :=
  match e with
  | ECoded c m d => Some (cls_code c, m, d)
  | _ => None
  end.

(** [__eq__]: [type(self) is type(other) and self.args == other.args]. *)
Definition exc_eq (e1 e2 : PyExc) : Prop :=
  match e1, e2 with
  | ECoded c1 m1 d1, ECoded c2 m2 d2 =>
      c1 = c2 /\ cls_code c1 = cls_code c2 /\ m1 = m2 /\ dict_equiv d1 d2
  | _, _ => False
  end.

(** [isinstance(e, cls)] for a coded class. *)
Definition is_instance (e : PyExc) (c : ExcClass) : bool :=
  match e with
  | ECoded c' _ _ => existsb (Nat.eqb (cls_id c)) (cls_mro c')
  | _ => false
  end.

(** The classes of exc.py and rpc/exc.py, in definition order. *)
Definition base_warning := mk_class None "warning" 2 None.
Definition base_error := mk_class None "error" 3 None.
Definition rpc_warning := mk_class (Some base_warning) "rpc" 4 None.
Definition rpc_deprecated_version :=
  mk_class (Some rpc_warning) "deprecated" 5 (Some "API version is deprecated").
Definition rpc_error := mk_class (Some base_error) "rpc" 6 None.
Definition rpc_parse_error := mk_class (Some rpc_error) "parse" 7 (Some "Parse error").
Definition rpc_invalid_request :=
  mk_class (Some rpc_error) "invalid_request" 8 (Some "Invalid request").
Definition rpc_unsupported_version :=
  mk_class (Some rpc_error) "unsupported_version" 9 (Some "Unsupported API version").
Definition rpc_undefined_method :=
  mk_class (Some rpc_error) "undefined_method" 10 (Some "Undefined method").
Definition rpc_invalid_params :=
  mk_class (Some rpc_error) "invalid_params" 11 (Some "Invalid parameters").
Definition rpc_internal_error :=
  mk_class (Some rpc_error) "internal" 12 (Some "Internal server error").

(** Declarations run at import time: (parent, short code, id, message). *)
Definition builtin_decls : list (option ExcClass * string * nat * option string) :=
  [ (None, "undefined", 1, Some "Undefined exception");
    (None, "warning", 2, None);
    (None, "error", 3, None);
    (Some base_warning, "rpc", 4, None);
    (Some rpc_warning, "deprecated", 5, Some "API version is deprecated");
    (Some base_error, "rpc", 6, None);
    (Some rpc_error, "parse", 7, Some "Parse error");
    (Some rpc_error, "invalid_request", 8, Some "Invalid request");
    (Some rpc_error, "unsupported_version", 9, Some "Unsupported API version");
    (Some rpc_error, "undefined_method", 10, Some "Undefined method");
    (Some rpc_error, "invalid_params", 11, Some "Invalid parameters");
    (Some rpc_error, "internal", 12, Some "Internal server error") ].

(** Importing the modules: class definitions in order; the first failing
    assertion aborts the import. *)
Fixpoint load (reg : Registry) (decls : list (option ExcClass * string * nat * option string))
    : PyResult Registry :=
  match decls with
  | [] => Ok reg
  | (p, s, id, m) :: rest =>
      match define_class reg p s id m with
      | Ok (_, reg') => load reg' rest
      | Raise e => Raise e
      end
  end.

Definition builtin_registry : Registry :=
  match load [] builtin_decls with Ok r => r | Raise _ => [] end.

End Exc.

Import Exc.

(* ------------------------------------------------------------------------- *)
(** * Stable sorting ([list.sort(key=...)])                                   *)
(* ------------------------------------------------------------------------- *)

(** Python's sort is stable: an element goes after every element already
    placed whose key is not greater. *)
Fixpoint insert_by {A} (le : A -> A -> bool) (x : A) (l : list A) : list A :=
  match l with
  | [] => [x]
  | y :: l' => if le y x then y :: insert_by le x l' else x :: l
  end.

Definition sort_by {A} (le : A -> A -> bool) (l : list A) : list A :=
  fold_left (fun acc x => insert_by le x acc) l [].

(** Python [str] ordering, by character codes: [String.leb]. *)
Definition str_leb : string -> string -> bool := String.leb.

(** [ZDict]: a dict keyed by ints ([API._versions] and its inner dicts). *)
Definition ZDict (V : Type) := list (Z * V).

Fixpoint zget {V} (d : ZDict V) (k : Z) : option V :=
  match d with
  | [] => None
  | (k', v) :: d' => if Z.eqb k k' then Some v else zget d' k
  end.

Fixpoint zset {V} (d : ZDict V) (k : Z) (v : V) : ZDict V :=
  match d with
  | [] => [(k, v)]
  | (k', v') :: d' => if Z.eqb k k' then (k', v) :: d' else (k', v') :: zset d' k v
  end.

(* ------------------------------------------------------------------------- *)
(** * Requests, responses, handlers, middleware (rpc/request.py, rpc/api.py) *)
(* ------------------------------------------------------------------------- *)

Module Rpc.

(** A handler coroutine called with keyword arguments, and its awaited
    outcome. *)
Definition HandlerFn := Dict Value -> PyResult Value.

(** [raises=] of [@handler]: one class or a tuple of classes. *)
Inductive Raises : Type :=
| RaisesOne (c : ExcClass)
| RaisesTuple (cs : list ExcClass).

(** A validx validator: a normalised mapping or a field->reason mapping. *)
Record Schema : Type := mkSchema {
  sch_validate : Dict Value -> sum (Dict Value) (Dict Value);
  sch_dump : Value
}.

(** [rpc_handler_info] set by [@handler]. *)
Record HandlerInfo : Type := mkInfo {
  hi_shield : bool;
  hi_raises : Raises;
  hi_schema : Schema;
  hi_extra : Dict Value
}.

(** [request.middlewares] is kept outside the record (it is only appended to
    during dispatch and read once to build the chain), see [Dispatch]. *)
Record Request : Type := mkRequest {
  rq_id : Value;
  rq_method : string;
  rq_meta : Dict Value;
  rq_params : Dict Value;
  rq_injections : Dict Value;
  rq_handler : option HandlerFn;
  rq_info : option HandlerInfo
}.

Definition new_request (id : Value) (method : string) (meta params : Dict Value) : Request :=
  mkRequest id method meta params [] None None.

Definition set_meta (r : Request) (m : Dict Value) : Request :=
  mkRequest (rq_id r) (rq_method r) m (rq_params r) (rq_injections r) (rq_handler r) (rq_info r).
Definition set_params (r : Request) (p : Dict Value) : Request :=
  mkRequest (rq_id r) (rq_method r) (rq_meta r) p (rq_injections r) (rq_handler r) (rq_info r).
Definition set_injections (r : Request) (i : Dict Value) : Request :=
  mkRequest (rq_id r) (rq_method r) (rq_meta r) (rq_params r) i (rq_handler r) (rq_info r).
Definition set_handler (r : Request) (h : HandlerFn) (i : HandlerInfo) : Request :=
  mkRequest (rq_id r) (rq_method r) (rq_meta r) (rq_params r) (rq_injections r) (Some h) (Some i).

Record Response : Type := mkResponse {
  resp_id : Value;
  resp_meta : Dict Value;
  resp_result : Value;
  resp_error : option PyExc;
  resp_warnings : list PyExc
}.

(** [request.response(result=..., error=...)]. *)
Definition response_of (r : Request) (result : Value) (error : option PyExc) : Response :=
  mkResponse (rq_id r) [] result error [].

(** An awaited [Handler]: its outcome and the exceptions it logged. *)
Definition Out := (PyResult Response * list PyExc)%type.

(** A bound middleware method [m(handler, request)] with its
    [rpc_middleware_info["order"]]. *)
Record MwDef : Type := mkMw {
  mw_name : string;
  mw_order : Z;
  mw_run : (Request -> Out) -> Request -> Out
}.

Record HandlerDef : Type := mkHandlerDef {
  hd_fn : HandlerFn;
  hd_info : HandlerInfo;
  hd_doc : string
}.

(** Attributes seen by [dir()]: a function carrying [rpc_handler_info]
    and/or [rpc_middleware_info], a [Namespace] component, or anything
    else.  A namespace node lists its attributes in [dir()] order. *)
Inductive Attr : Type :=
| AFunc (h : option HandlerDef) (m : option MwDef)
| ANamespace (ns : Namespace)
| AOther
with Namespace : Type :=
| mkNs (enabled : bool) (is_dispatcher : bool) (attrs : list (string * Attr)).

Definition ns_enabled (ns : Namespace) : bool := let 'mkNs e _ _ := ns in e.
Definition ns_is_dispatcher (ns : Namespace) : bool := let 'mkNs _ d _ := ns in d.
Definition ns_attrs (ns : Namespace) : list (string * Attr) := let 'mkNs _ _ a := ns in a.

(** [not name.startswith("_")]. *)
Definition public (name : string) : bool :=
  match name with
  | String c _ => negb (Ascii.eqb c "_"%char)
  | EmptyString => true
  end.

Definition mw_le (a b : MwDef) : bool := Z.leb (mw_order a) (mw_order b).

(** [Namespace.on_setup]: the middleware attributes, sorted by order. *)
Definition ns_middlewares (ns : Namespace) : list MwDef :=
  sort_by mw_le
    (flat_map (fun '(name, a) =>
                 if public name then
                   match a with AFunc _ (Some m) => [m] | _ => [] end
                 else []) (ns_attrs ns)).

Record MethodDef : Type := mkMethodDef {
  md_name : string;
  md_handler : HandlerDef;
  md_namespaces : list Namespace
}.

(** [Namespace.iter_methods(namespaces, prefix)]. *)
Fixpoint iter_methods (ns : Namespace) (namespaces : list Namespace) (prefix : string)
    : list MethodDef :=
  match ns with
  | mkNs _ _ attrs =>
      (fix go (l : list (string * Attr)) : list MethodDef :=
         match l with
         | [] => []
         | (name, a) :: rest =>
             app
             (if public name then
                match a with
                | AFunc (Some hd) _ => [mkMethodDef (prefix ++ name) hd namespaces]
                | ANamespace child =>
                    if ns_enabled child && negb (ns_is_dispatcher child)
                    then iter_methods child (app namespaces [child]) (name ++ ".")
                    else []
                | _ => []
                end
              else []) (go rest)
         end) attrs
  end.

(** [request.meta.get(k)]. *)
Definition meta_get (meta : Dict Value) (k : string) : Value :=
  match dict_get meta k with Some v => v | None => VNone end.

(** [raise C(method=..., ...)]: the new instance, or what its constructor raised. *)
Definition raise_new (c : ExcClass) (data : Dict Value) : PyExc :=
  match exc_init c None data with Ok e => e | Raise e => e end.

(** [isinstance(e, request.handler_info["raises"])]. *)
Definition raises_match (r : Raises) (e : PyExc) : bool :=
  match r with
  | RaisesOne c => is_instance e c
  | RaisesTuple cs => existsb (is_instance e) cs
  end.

(** Caught by [except Exception]. *)
Definition is_exception (e : PyExc) : bool :=
  match e with EBaseOnly _ => false | _ => true end.

(** [e.data.update(method=..., version=...)] on a coded exception. *)
Definition enrich (e : PyExc) (upd : Dict Value) : PyExc :=
  match e with ECoded c m d => ECoded c m (dict_update d upd) | _ => e end.

(** The innermost handler [wrapper] built by [Dispatcher.dispatch]. *)
Definition wrapper (req : Request) : Out :=
  let params := dict_update (rq_params req) (rq_injections req) in
  let ctx := [("method", VStr (rq_method req)); ("version", meta_get (rq_meta req) "version")] in
  match rq_info req with
  | None => (Raise key_error, [])
  | Some info =>
      match (match rq_handler req with Some f => f params | None => Raise type_error end) with
      | Ok result => (Ok (response_of req result None), [])
      | Raise ECancelled => (Raise ECancelled, [])
      | Raise e =>
          if is_exception e then
            if raises_match (hi_raises info) e && is_instance e base_error
            then (Raise (enrich e ctx), [])
            else (Raise (raise_new rpc_internal_error ctx), [e])
          else (Raise e, [])
      end
  end.

(** [for middleware in reversed(mws): handler = partial(middleware, handler)]. *)
Definition compose (mws : list MwDef) (h : Request -> Out) : Request -> Out :=
  fold_left (fun acc m => mw_run m acc) (rev mws) h.

(** [Dispatcher.on_setup]: [{md.name: md for md in self.iter_methods()}]. *)
Definition methods_table (self : Namespace) : Dict MethodDef :=
  fold_left (fun d md => dict_set d (md_name md) md) (iter_methods self [] "") [].

(** [request.middlewares] after step 2 of [Dispatcher.dispatch], from the
    list [mws] the request arrived with. *)
Definition accumulated (self : Namespace) (mws : list MwDef) (md : MethodDef) : list MwDef :=
  app mws (app (ns_middlewares self) (List.concat (map ns_middlewares (md_namespaces md)))).

(** [Dispatcher.dispatch(request)], [mws] being [request.middlewares]. *)
Definition disp_dispatch (self : Namespace) (mws : list MwDef) (req : Request) : Out :=
  match dict_get (methods_table self) (rq_method req) with
  | None =>
      (Raise (raise_new rpc_undefined_method
                [("method", VStr (rq_method req)); ("version", meta_get (rq_meta req) "version")]), [])
  | Some md =>
      let hd := md_handler md in
      let req1 := set_handler req (hd_fn hd) (hd_info hd) in
      match sch_validate (hi_schema (hd_info hd)) (rq_params req1) with
      | inl reason =>
          (Raise (raise_new rpc_invalid_params
                    [("reason", VDict reason); ("method", VStr (rq_method req1));
                     ("version", meta_get (rq_meta req1) "version")]), [])
      | inr params => compose (accumulated self mws md) wrapper (set_params req1 params)
      end
  end.

(* ---- API / APIVersion ---- *)

Record APIVersion : Type := mkAPIVersion {
  av_version : Z * Z;
  av_deprecated : bool;
  av_doc : string;
  av_ns : Namespace
}.

(** Entries of [self.depends_on]. *)
Inductive Component : Type :=
| CVersion (v : APIVersion)
| COther.

(** [key=lambda v: v.version]: tuples compare lexicographically. *)
Definition ver_le (a b : APIVersion) : bool :=
  let '(M1, m1) := av_version a in
  let '(M2, m2) := av_version b in
  Z.ltb M1 M2 || (Z.eqb M1 M2 && Z.leb m1 m2).

(** One iteration of the loop of [API.on_setup]:
    [majors = self._versions.setdefault(v.version.major, {});
     majors[v.version.minor] = v]. *)
Definition add_version (acc : ZDict (ZDict APIVersion)) (v : APIVersion)
    : ZDict (ZDict APIVersion) :=
  let '(M, m) := av_version v in
  let majors := match zget acc M with Some d => d | None => [] end in
  zset acc M (zset majors m v).

(** The [APIVersion] entries of [self.depends_on]. *)
Definition registered (depends_on : list Component) : list APIVersion :=
  flat_map (fun c => match c with CVersion v => [v] | COther => [] end) depends_on.

(** [API.on_setup]: [self._versions]. *)
Definition api_versions (depends_on : list Component) : ZDict (ZDict APIVersion) :=
  fold_left add_version (sort_by ver_le (registered depends_on)) [].

Definition version_value (v : Z * Z) : Value := VTuple [VInt (fst v); VInt (snd v)].

(** [version[0]], [version[1]] on a two-element sequence. *)
Definition as_pair (v : Value) : option (Z * Z) :=
  match v with
  | VTuple [VInt a; VInt b] | VList [VInt a; VInt b] => Some (a, b)
  | _ => None
  end.

(** [request.meta.setdefault(k, d)]. *)
Definition meta_setdefault (meta : Dict Value) (k : string) (d : Value) : Dict Value * Value :=
  match dict_get meta k with
  | Some v => (meta, v)
  | None => (dict_set meta k d, d)
  end.

(** [APIVersion.set_version_info], the [@middleware(100)] every
    [APIVersion] has, for a version class with [version] and [deprecated]. *)
Definition set_version_info (version : Z * Z) (deprecated : bool) : MwDef :=
  mkMw "set_version_info" 100 (fun handler request =>
    let '(r, log) := handler request in
    match r with
    | Ok response =>
        (Ok (mkResponse (resp_id response)
               (fst (meta_setdefault (resp_meta response) "version" (version_value version)))
               (resp_result response) (resp_error response)
               (if deprecated
                then app (resp_warnings response) [raise_new rpc_deprecated_version []]
                else resp_warnings response)), log)
    | Raise e => (Raise e, log)
    end).

(** [API.dispatch(request)]; [api_ns] is the API's own dispatcher node and
    [vt] its [_versions]. *)
Definition api_dispatch (api_ns : Namespace) (vt : ZDict (ZDict APIVersion))
    (mws : list MwDef) (req0 : Request) : Out :=
  let '(meta, version) := meta_setdefault (rq_meta req0) "version" VNone in
  let req := set_meta req0 meta in
  match version with
  | VNone => disp_dispatch api_ns mws req
  | _ =>
      match as_pair version with
      | None => (Raise type_error, [])
      | Some (M, m) =>
          match zget vt M with
          | None => (Raise (raise_new rpc_unsupported_version [("version", version)]), [])
          | Some majors =>
              let context :=
                match zget majors m with
                | Some av => Some av
                | None =>
                    match find (fun '(minor, _) => Z.ltb m minor) majors with
                    | Some (_, av) => Some av
                    | None => None
                    end
                end in
              match context with
              | None =>
                  (Raise (raise_new rpc_unsupported_version
                            [("version", meta_get (rq_meta req) "version")]), [])
              | Some av =>
                  disp_dispatch (av_ns av) (app mws (ns_middlewares api_ns))
                    (set_meta req (dict_set meta "version" (version_value (av_version av))))
              end
          end
      end
  end.

(** One entry of [API.list_versions]. *)
Definition version_entry (av : APIVersion) : Dict Value :=
  [("version", version_value (av_version av));
   ("deprecated", VBool (av_deprecated av));
   ("description", VStr (av_doc av))].

(** [API.list_versions]: [for majors in self._versions.values():
    for minor in majors.values(): ...]. *)
Definition list_versions (vt : ZDict (ZDict APIVersion)) : list (Dict Value) :=
  flat_map (fun '(_, majors) => map (fun '(_, av) => version_entry av) majors) vt.

Definition raises_codes (r : Raises) : list string :=
  match r with
  | RaisesTuple cs => map cls_code cs
  | RaisesOne c => [cls_code c]
  end.

(** One entry of [Dispatcher.list_methods].  The class objects of
    [rpc_handler_info["raises"]] and the schema object have no [Value]
    form; they sit at their keys as [VNone] until replaced, as in the
    source, by [schema.dump()] and the list of codes. *)
Definition method_info (md : MethodDef) : Dict Value :=
  let hi := hd_info (md_handler md) in
  let info0 := dict_update [("shield", VBool (hi_shield hi)); ("raises", VNone); ("schema", VNone)]
                 (hi_extra hi) in
  let info1 := dict_update info0 [("name", VStr (md_name md));
                                  ("description", VStr (hd_doc (md_handler md)))] in
  let info2 := dict_set info1 "schema" (sch_dump (hi_schema hi)) in
  dict_set info2 "raises" (VList (map VStr (raises_codes (hi_raises hi)))).

Definition name_key (e : Dict Value) : string :=
  match dict_get e "name" with Some (VStr s) => s | _ => "" end.

(** [Dispatcher.list_methods]. *)
Definition list_methods (table : Dict MethodDef) : list (Dict Value) :=
  sort_by (fun a b => str_leb (name_key a) (name_key b)) (map (fun kv => method_info (snd kv)) table).

End Rpc.

(* ------------------------------------------------------------------------- *)
(** * Wire layer (rpc/transport.py, serializer.py)                            *)
(* ------------------------------------------------------------------------- *)

Module Transport.
Import Rpc.

(** Decoded/encoded JSON documents (rapidjson). *)
Inductive Json : Type :=
| JNull
| JBool (b : bool)
| JInt (z : Z)
| JStr (s : string)
| JArr (xs : list Json)
| JObj (kvs : list (string * Json)).

(** [rapidjson.dumps(v, default=Serializer.before_dump)]: a [Serializable]
    is replaced by its [dump()] (which may raise), and a value with no
    dumper makes [before_dump] raise [TypeError]. *)
Fixpoint to_json (v : Value) : PyResult Json :=
  match v with
  | VNone => Ok JNull
  | VBool b => Ok (JBool b)
  | VInt z => Ok (JInt z)
  | VStr s => Ok (JStr s)
  | VTuple xs | VList xs =>
      match (fix go (l : list Value) : PyResult (list Json) :=
               match l with
               | [] => Ok []
               | x :: l' =>
                   match to_json x with
                   | Raise e => Raise e
                   | Ok j => match go l' with Ok js => Ok (j :: js) | Raise e => Raise e end
                   end
               end) xs with
      | Ok js => Ok (JArr js)
      | Raise e => Raise e
      end
  | VDict kvs =>
      match (fix go (l : list (string * Value)) : PyResult (list (string * Json)) :=
               match l with
               | [] => Ok []
               | (k, x) :: l' =>
                   match to_json x with
                   | Raise e => Raise e
                   | Ok j => match go l' with Ok js => Ok ((k, j) :: js) | Raise e => Raise e end
                   end
               end) kvs with
      | Ok js => Ok (JObj js)
      | Raise e => Raise e
      end
  | VOpaque _ => Raise (EPlain ["TypeError"; "Exception"] "is not JSON-serializable")
  | VCustom (inl mro) => Raise (EPlain mro "")
  | VCustom (inr d) => to_json d
  end.

(** [BaseExc.dump()] as the codec sees it. *)
Definition exc_value (e : PyExc) : Value :=
  match e with
  | ECoded c m d => VDict [("code", VStr (cls_code c)); ("message", opt_str m); ("data", VDict d)]
  | _ => VOpaque 0
  end.

(** [Response.dump()]. *)
Definition response_value (r : Response) : Value :=
  VDict [("id", resp_id r); ("meta", VDict (resp_meta r)); ("result", resp_result r);
         ("error", match resp_error r with Some e => exc_value e | None => VNone end);
         ("warnings", VList (map exc_value (resp_warnings r)))].

Inductive WireOut : Type :=
| WSingle (r : Response)
| WBatch (rs : list Response).

Definition wire_value (o : WireOut) : Value :=
  match o with
  | WSingle r => response_value r
  | WBatch rs => VList (map response_value rs)
  end.

(** [except (ValueError, TypeError)]. *)
Definition is_value_or_type_error (e : PyExc) : bool :=
  match e with
  | EPlain mro _ => existsb (fun n => String.eqb n "ValueError" || String.eqb n "TypeError") mro
  | _ => false
  end.

(** Modelled from the spec: [Request.load(payload, transport_info=...)] as
    transport.py calls it.  The request.py under src/ predates this call (its
    [load] takes no [transport_info] and it defines no [TransportInfo]); the
    spec (section 4.2) gives the contract: [id] a required int, [method] a
    required string, [params] a mapping defaulting to [{}], [meta] a mapping
    defaulting to [{}] with an optional nullable pair of ints [version];
    any failure raises "invalid request" with a field->reason mapping.  The
    transport information is attached to the request; no property read
    here depends on it, so it is not kept. *)
Definition load_request (raw : Value) (transport_info : Dict Value) : PyResult Request :=
  let invalid field msg :=
    Raise (raise_new rpc_invalid_request [("reason", VDict [(field, VStr msg)])]) in
  match raw with
  | VDict kvs =>
      match dict_get kvs "id", dict_get kvs "method" with
      | Some (VInt id), Some (VStr method) =>
          let params := match dict_get kvs "params" with Some p => p | None => VDict [] end in
          let meta := match dict_get kvs "meta" with Some m => m | None => VDict [] end in
          match params, meta with
          | VDict ps, VDict ms =>
              match dict_get ms "version" with
              | None | Some VNone => Ok (new_request (VInt id) method ms ps)
              | Some v =>
                  match as_pair v with
                  | Some (a, b) =>
                      if Z.leb 0 a && Z.leb 0 b
                      then Ok (new_request (VInt id) method
                                 (dict_set ms "version" (VTuple [VInt a; VInt b])) ps)
                      else invalid "meta.version" "Expected value >= 0."
                  | None => invalid "meta.version" "Expected a pair of integers."
                  end
              end
          | VDict _, _ => invalid "meta" "Expected type dict."
          | _, _ => invalid "params" "Expected type dict."
          end
      | None, _ => invalid "id" "Required key is not provided."
      | Some _, None => invalid "method" "Required key is not provided."
      | Some (VInt _), Some _ => invalid "method" "Expected type str."
      | Some _, Some _ => invalid "id" "Expected type int."
      end
  | _ => invalid "" "Expected type dict."
  end.

(** [raw_request["id"] if isinstance(raw_request, dict) and
    isinstance(raw_request.get("id"), int) else None] ([bool] is an [int]). *)
Definition recovered_id (raw : Value) : Value :=
  match raw with
  | VDict kvs =>
      match dict_get kvs "id" with
      | Some (VInt z) => VInt z
      | Some (VBool b) => VBool b
      | _ => VNone
      end
  | _ => VNone
  end.

(** [HTTPRoutes.handle_raw(raw_request, http_headers)]; [d] is
    [self.api.dispatch]. *)
Definition handle_raw (d : Request -> Out) (headers : Dict Value) (raw : Value)
    : PyResult Response * list PyExc :=
  match load_request raw headers with
  | Raise e =>
      if is_instance e rpc_invalid_request
      then (Ok (mkResponse (recovered_id raw) [] VNone (Some e) []), [])
      else (Raise e, [])
  | Ok req =>
      let '(r, log) := d req in
      match r with
      | Ok resp => (Ok resp, log)
      | Raise e =>
          if is_instance e base_error then (Ok (response_of req VNone (Some e)), log)
          else
            match e with
            | ECancelled => (Raise ECancelled, log)
            | _ =>
                if is_exception e
                then (Ok (response_of req VNone (Some (raise_new rpc_internal_error []))),
                      app log [e])
                else (Raise e, log)
            end
      end
  end.

(** [asyncio.gather(...)]: every result, or the exception of a failing
    item (the first of them in list order). *)
Fixpoint gather (outs : list (PyResult Response * list PyExc))
    : PyResult (list Response) * list PyExc :=
  match outs with
  | [] => (Ok [], [])
  | (r, log) :: rest =>
      let '(rs, logs) := gather rest in
      match r, rs with
      | Ok x, Ok xs => (Ok (x :: xs), app log logs)
      | Raise e, _ => (Raise e, app log logs)
      | Ok _, Raise e => (Raise e, app log logs)
      end
  end.

(** [HTTPRoutes.handle_json]; [decoded] is the outcome of
    [self.serializer.loadb(json_request)], and the produced bytes are the
    encoded JSON document. *)
Definition handle_json (d : Request -> Out) (headers : Dict Value) (decoded : PyResult Value)
    : PyResult Json * list PyExc :=
  match decoded with
  | Raise e =>
      if is_value_or_type_error e then
        let reason := match e with EPlain _ t => t | _ => "" end in
        (to_json (response_value
                    (mkResponse VNone [] VNone
                       (Some (raise_new rpc_parse_error [("reason", VStr reason)])) [])), [])
      else (Raise e, [])
  | Ok raw =>
      let '(res, log) :=
        match raw with
        | VList items =>
            let '(r, l) := gather (map (handle_raw d headers) items) in
            (match r with Ok rs => Ok (WBatch rs) | Raise e => Raise e end, l)
        | _ =>
            let '(r, l) := handle_raw d headers raw in
            (match r with Ok x => Ok (WSingle x) | Raise e => Raise e end, l)
        end in
      match res with
      | Raise e => (Raise e, log)
      | Ok out =>
          match to_json (wire_value out) with
          | Ok j => (Ok j, log)
          | Raise e =>
              if is_value_or_type_error e
              then (to_json (response_value
                               (mkResponse VNone [] VNone
                                  (Some (raise_new rpc_internal_error [])) [])), app log [e])
              else (Raise e, log)
          end
      end
  end.

End Transport.

(* ------------------------------------------------------------------------- *)
(** * Specification predicates                                               *)
(* ------------------------------------------------------------------------- *)

Module Specs.
Import Rpc.

(** A registry reachable by class definitions run from the empty registry;
    the parent of a new class is an existing (hence registered) class or
    [BaseExc] itself. *)
Definition parent_ok (reg : Registry) (p : option ExcClass) : Prop :=
  match p with None => True | Some pc => dict_get reg (cls_code pc) = Some pc end.

Inductive Loaded : Registry -> Prop :=
| loaded_empty : Loaded []
| loaded_define : forall reg p s id m c reg',
    Loaded reg -> parent_ok reg p ->
    define_class reg p s id m = Ok (c, reg') -> Loaded reg'.

(** Each code maps to one class whose code is the dot-join of its chain. *)
Definition registry_wf (reg : Registry) : Prop :=
  NoDup (map fst reg) /\
  forall k c, In (k, c) reg ->
    k = cls_code c /\ cls_chain c <> [] /\ cls_code c = String.concat "." (cls_chain c).

(** Keys of [data] that are also parameter names of [dispatch] or of
    [BaseExc.__init__]. *)
Definition reserved_free (d : Dict Value) : Prop :=
  forall k, In k ["cls"; "code"; "message"; "self"] -> dict_get d k = None.

(** Keys of [data] that are also parameter names of [dispatch]. *)
Definition dispatch_free (d : Dict Value) : Prop :=
  forall k, In k ["cls"; "code"; "message"] -> dict_get d k = None.

End Specs.

(* ------------------------------------------------------------------------- *)
(** * Concrete inputs (tests/rpc/test_api.py and friends)                    *)
(* ------------------------------------------------------------------------- *)

Module Examples.
Import Rpc.
Local Open Scope Z_scope.
Local Open Scope string_scope.

(** The classes [error], [error.rpc], [error.rpc.invalid_params] loaded in
    order. *)
Definition reg3 : Registry :=
  [("error", base_error); ("error.rpc", rpc_error); ("error.rpc.invalid_params", rpc_invalid_params)].

Definition attribute_error : PyExc := EPlain ["AttributeError"; "Exception"] "".

(** [response.meta.setdefault("middlewares", [])] as a list, if it is one. *)
Definition tags_of (r : Response) : option (list Value) :=
  match dict_get (resp_meta r) "middlewares" with
  | None => Some []
  | Some (VList l) => Some l
  | Some _ => None
  end.

(** The after-logic of the test middlewares:
    [response.meta.setdefault("middlewares", []).append(name)]. *)
Definition tag_response (name : string) (o : Out) : Out :=
  match o with
  | (Ok r, log) =>
      match tags_of r with
      | Some l =>
          (Ok (mkResponse (resp_id r)
                 (dict_set (resp_meta r) "middlewares" (VList (app l [VStr name])))
                 (resp_result r) (resp_error r) (resp_warnings r)), log)
      | None => (Raise attribute_error, log)
      end
  | o => o
  end.

(** [@middleware(order) async def m(self, handler, request):
       response = await handler(request); <tag>; return response]. *)
Definition tag_mw (name : string) (order : Z) : MwDef :=
  mkMw name order (fun handler request => tag_response name (handler request)).

(** [validx.Dict({...})] on well-typed input: the params unchanged. *)
Definition accept_all : Schema := mkSchema inr (VDict []).

Definition plain_info (shield : bool) (raises : Raises) : HandlerInfo :=
  mkInfo shield raises accept_all [].

(** [async def sum(self, x, y)]. *)
Definition sum_fn : HandlerFn := fun params =>
  match dict_get params "x", dict_get params "y" with
  | Some (VInt x), Some (VInt y) => Ok (VInt (x + y))
  | _, _ => Raise type_error
  end.

(** [async def get_nothing(self)]. *)
Definition get_nothing_fn : HandlerFn := fun params =>
  match params with [] => Ok VNone | _ => Raise type_error end.

Definition nested_ns : Namespace :=
  mkNs true false
    [("get_nothing", AFunc (Some (mkHandlerDef get_nothing_fn (plain_info true (RaisesTuple [])) "")) None)].

Definition foo_ns : Namespace :=
  mkNs true false
    [("middleware_1", AFunc None (Some (tag_mw "Foo.middleware_1" 1)));
     ("middleware_2", AFunc None (Some (tag_mw "Foo.middleware_2" 2)));
     ("nested", ANamespace nested_ns);
     ("sum", AFunc (Some (mkHandlerDef sum_fn (plain_info true (RaisesTuple [])) "")) None)].

(** An [APIVersion] node: its [set_version_info] middleware, its own
    tagging middlewares and the [foo] namespace. *)
Definition version_ns (tag : string) (version : Z * Z) (deprecated : bool) : Namespace :=
  mkNs true true
    [("foo", ANamespace foo_ns);
     ("middleware_1", AFunc None (Some (tag_mw (tag ++ ".middleware_1") 1)));
     ("middleware_2", AFunc None (Some (tag_mw (tag ++ ".middleware_2") 2)));
     ("set_version_info", AFunc None (Some (set_version_info version deprecated)))].

Definition v10 : APIVersion := mkAPIVersion (1, 0) true "" (version_ns "V10" (1, 0) true).
Definition v21 : APIVersion := mkAPIVersion (2, 1) false "" (version_ns "V21" (2, 1) false).

(** [class App(API)] with [foo], [v10], [v21] and two tagging middlewares. *)
Definition app_ns : Namespace :=
  mkNs true true
    [("foo", ANamespace foo_ns);
     ("middleware_1", AFunc None (Some (tag_mw "App.middleware_1" 1)));
     ("middleware_2", AFunc None (Some (tag_mw "App.middleware_2" 2)));
     ("v10", ANamespace (v10.(av_ns)));
     ("v21", ANamespace (v21.(av_ns)))].

Definition app_deps : list Component := [CVersion v10; CVersion v21; COther].

Definition sum_request (meta : Dict Value) : Request :=
  new_request (VInt 1) "foo.sum" meta [("x", VInt 1); ("y", VInt 2)].

Definition result_tags (o : Out) : option (list Value) :=
  match fst o with Ok r => tags_of r | Raise _ => None end.

(** [dispatch] of a request for [method] without params. *)
Definition bare_request (id : Z) (method : string) : Request :=
  new_request (VInt id) method [] [].

(** [App] with its versions registered in the other order, and with two
    classes for the version (1, 0). *)
Definition v10b : APIVersion := mkAPIVersion (1, 0) false "" (version_ns "V10b" (1, 0) false).
Definition swapped_deps : list Component := [CVersion v21; CVersion v10].
Definition duplicate_deps : list Component := [CVersion v10; CVersion v10b].

(** Handlers whose results the codec cannot write: an object with no dumper
    and a [Serializable] whose [dump()] raises [KeyError]. *)
Definition opaque_fn : HandlerFn := fun _ => Ok (VOpaque 0).
Definition key_error_fn : HandlerFn := fun _ => Ok (VCustom (inl ["KeyError"; "LookupError"; "Exception"])).

Definition wire_ns : Namespace :=
  mkNs true true
    [("bad_key", AFunc (Some (mkHandlerDef key_error_fn (plain_info true (RaisesTuple [])) "")) None);
     ("bad_type", AFunc (Some (mkHandlerDef opaque_fn (plain_info true (RaisesTuple [])) "")) None);
     ("foo", ANamespace foo_ns)].

(** [self.api.dispatch] of an [API] whose node is [wire_ns], no versions. *)
Definition wire_dispatch (req : Request) : Out := api_dispatch wire_ns [] [] req.

(** A wire request object [{"id": id, "method": method, "params": params}]. *)
Definition raw_item (id : Z) (method : string) (params : Dict Value) : Value :=
  VDict [("id", VInt id); ("method", VStr method); ("params", VDict params)].

(** The routing entry of [foo.sum] in [App]. *)
Definition sum_method : MethodDef :=
  mkMethodDef "foo.sum" (mkHandlerDef sum_fn (plain_info true (RaisesTuple [])) "") [foo_ns].

End Examples.

(* ------------------------------------------------------------------------- *)
(** * Loop invariants and derived views used by the proofs                   *)
(* ------------------------------------------------------------------------- *)

Module Props.
Import Rpc Transport.

(** Invariant of the loop of [API.on_setup] after the versions [P]. *)
Definition VInv (acc : ZDict (ZDict APIVersion)) (P : list APIVersion) : Prop :=
  (forall M majors, zget acc M = Some majors ->
     (forall k av, In (k, av) majors -> In av P /\ av_version av = (M, k)) /\
     StronglySorted Z.lt (map fst majors)) /\
  (forall v, In v P ->
     exists majors, zget acc (fst (av_version v)) = Some majors /\
                    zget majors (snd (av_version v)) <> None).

(** Invariant of the loop of [API.on_setup] on the majors: keys ascending,
    each the major of a version seen. *)
Definition OInv (acc : ZDict (ZDict APIVersion)) (P : list APIVersion) : Prop :=
  StronglySorted Z.lt (map fst acc) /\
  forall M, In M (map fst acc) -> exists p, In p P /\ fst (av_version p) = M.

(** Lexicographic [<] on version tuples. *)
Definition version_lt (a b : Z * Z) : Prop :=
  (fst a < fst b \/ (fst a = fst b /\ snd a < snd b))%Z.

(** The versions of [_versions] in its iteration order. *)
Definition versions_in_order (vt : ZDict (ZDict APIVersion)) : list APIVersion :=
  flat_map (fun '(_, majors) => map snd majors) vt.

(** What [handle_raw] answers for the element [raw], given the element's
    response [r]. *)
Definition raw_outcome (d : Request -> Out) (headers : Dict Value) (raw : Value) (r : Response) : Prop :=
  (forall e, load_request raw headers = Raise e ->
     r = mkResponse (recovered_id raw) [] VNone (Some e) []) /\
  (forall req, load_request raw headers = Ok req ->
     (forall resp, fst (d req) = Ok resp -> r = resp) /\
     (forall e, fst (d req) = Raise e -> is_instance e base_error = true ->
        r = response_of req VNone (Some e)) /\
     (forall e, fst (d req) = Raise e -> is_instance e base_error = false ->
        r = response_of req VNone (Some (raise_new rpc_internal_error [])))).

End Props.

(* ------------------------------------------------------------------------- *)
(** * Exception listing and the HTTP entry point                              *)
(* ------------------------------------------------------------------------- *)

Module Catalog.
Import Rpc.

Definition code_key (e : Dict Value) : string :=
  match dict_get e "code" with Some (VStr s) => s | _ => "" end.

(** One entry of [list_exceptions]; [doc c] is [cleandoc(c.__doc__ or "")]. *)
Definition exception_entry (doc : ExcClass -> string) (kv : string * ExcClass) : Dict Value :=
  [("code", VStr (fst kv)); ("message", opt_str (cls_message (snd kv)));
   ("description", VStr (doc (snd kv)))].

(** [Dispatcher.list_exceptions] over [BaseExc.registry]. *)
Definition list_exceptions (doc : ExcClass -> string) (reg : Registry) : list (Dict Value) :=
  sort_by (fun a b => str_leb (code_key a) (code_key b)) (map (exception_entry doc) reg).

End Catalog.

Module Http.
Import Rpc Transport.

(** What aiohttp sends back: the JSON body with status 200, or a bare
    status (a raised [web.HTTPInternalServerError] becomes a 500 answer). *)
Inductive HttpResponse : Type :=
| HttpJson (body : Json)
| HttpStatus (status : Z).

(** [HTTPRoutes.post]; [decoded] is the decoding of the request body, as for
    [handle_json]. *)
Definition post (d : Request -> Out) (headers : Dict Value) (decoded : PyResult Value)
    : PyResult HttpResponse * list PyExc :=
  let '(r, log) := handle_json d headers decoded in
  match r with
  | Ok body => (Ok (HttpJson body), log)
  | Raise ECancelled => (Raise ECancelled, log)
  | Raise e => if is_exception e then (Ok (HttpStatus 500), app log [e]) else (Raise e, log)
  end.

End Http.

(* ------------------------------------------------------------------------- *)
(** * JSON serializer (myack/serializer.py)                                   *)
(* ------------------------------------------------------------------------- *)

Module Serializer.
Local Open Scope Z_scope.

(** Python objects that reach [Serializer.before_dump] or come out of
    [Serializer.after_load].  [PFloat z] is the float [z.0] (the
    [utcoffset] a dumper writes for a whole-minute offset); a [tzinfo] is
    its [utcoffset()] in whole minutes ([None] for a naive object). *)
Inductive PyObj : Type :=
| PNone
| PBool (b : bool)
| PInt (z : Z)
| PFloat (z : Z)
| PStr (s : string)
| PList (xs : list PyObj)
| PDict (kvs : list (string * PyObj))
| PDate (year month day : Z)
| PTime (hour minute second microsecond : Z) (tz : option Z)
| PDateTime (year month day hour minute second microsecond : Z) (tz : option Z)
| PSerializable (dumped : PyResult PyObj)
| POther (n : nat).

Definition overflow_error : PyExc := EPlain ["OverflowError"; "ArithmeticError"; "Exception"] "".

(* ---- the calendar of CPython's datetime module ---- *)

Definition MINYEAR := 1.
Definition MAXYEAR := 9999.
Definition MAXORDINAL := 3652059.

Definition is_leap (y : Z) : bool :=
  Z.eqb (y mod 4) 0 && (negb (Z.eqb (y mod 100) 0) || Z.eqb (y mod 400) 0).

Definition days_in_month (y m : Z) : Z :=
  if Z.eqb m 2 then (if is_leap y then 29 else 28)
  else if Z.eqb m 4 || Z.eqb m 6 || Z.eqb m 9 || Z.eqb m 11 then 30 else 31.

(** [_days_before_month] ([0, 0, 31, 59, ...]) with the leap-day
    adjustment. *)
Definition days_before_month (y m : Z) : Z :=
  let base :=
    match m with
    | 1 => 0 | 2 => 31 | 3 => 59 | 4 => 90 | 5 => 120 | 6 => 151
    | 7 => 181 | 8 => 212 | 9 => 243 | 10 => 273 | 11 => 304 | _ => 334
    end in
  if (2 <? m) && is_leap y then base + 1 else base.

Definition days_before_year (y : Z) : Z :=
  let y1 := y - 1 in y1 * 365 + y1 / 4 - y1 / 100 + y1 / 400.

Definition ymd_to_ord (y m d : Z) : Z := days_before_year y + days_before_month y m + d.

(** [ord_to_ymd]. *)
Definition ord_to_ymd (ordinal : Z) : Z * Z * Z :=
  let o := ordinal - 1 in
  let n400 := o / 146097 in let n := o mod 146097 in
  let n100 := n / 36524 in let n := n mod 36524 in
  let n4 := n / 1461 in let n := n mod 1461 in
  let n1 := n / 365 in let n := n mod 365 in
  let year := n400 * 400 + 1 + n100 * 100 + n4 * 4 + n1 in
  if Z.eqb n1 4 || Z.eqb n100 4 then (year - 1, 12, 31)
  else
    let month := Z.shiftr (n + 50) 5 in
    let preceding := days_before_month year month in
    let '(month, preceding) :=
      if preceding >? n
      then (month - 1, preceding - days_in_month year (month - 1))
      else (month, preceding) in
    (year, month, n - preceding + 1).

(** [normalize_y_m_d]. *)
Definition normalize_date (y m d : Z) : PyResult (Z * Z * Z) :=
  let dim := days_in_month y m in
  let '(y, m, d, ord) :=
    if (d <? 1) || (dim <? d) then
      if Z.eqb d 0 then
        if 0 <? m - 1 then (y, m - 1, days_in_month y (m - 1), false)
        else (y - 1, 12, 31, false)
      else if Z.eqb d (dim + 1) then
        if 12 <? m + 1 then (y + 1, 1, 1, false) else (y, m + 1, 1, false)
      else (y, m, d, true)
    else (y, m, d, false) in
  if ord then
    let ordinal := ymd_to_ord y m 1 + d - 1 in
    if (ordinal <? 1) || (MAXORDINAL <? ordinal) then Raise overflow_error
    else Ok (ord_to_ymd ordinal)
  else if (MINYEAR <=? y) && (y <=? MAXYEAR) then Ok (y, m, d)
  else Raise overflow_error.

(** [normalize_pair(hi, lo, factor)]: floor division carries into [hi]. *)
Definition normalize_pair (hi lo factor : Z) : Z * Z :=
  (hi + lo / factor, lo mod factor).

(** [normalize_datetime]. *)
Definition normalize_datetime (y m d hh mi s us : Z)
    : PyResult (Z * Z * Z * Z * Z * Z * Z) :=
  let '(s, us) := normalize_pair s us 1000000 in
  let '(mi, s) := normalize_pair mi s 60 in
  let '(hh, mi) := normalize_pair hh mi 60 in
  let '(d, hh) := normalize_pair d hh 24 in
  match normalize_date y m d with
  | Ok (y, m, d) => Ok (y, m, d, hh, mi, s, us)
  | Raise e => Raise e
  end.

(** An argument parsed with the "i" format: an [int] (a [bool] is one) that
    fits a C [int]. *)
Definition c_int (o : PyObj) : PyResult Z :=
  match o with
  | PInt z => if (-2147483648 <=? z) && (z <=? 2147483647) then Ok z else Raise overflow_error
  | PBool b => Ok (if b then 1 else 0)
  | _ => Raise type_error
  end.

Fixpoint c_ints (os : list PyObj) : PyResult (list Z) :=
  match os with
  | [] => Ok []
  | o :: os' =>
      match c_int o with
      | Raise e => Raise e
      | Ok z => match c_ints os' with Ok zs => Ok (z :: zs) | Raise e => Raise e end
      end
  end.

(** [check_date_args]. *)
Definition check_date (y m d : Z) : bool :=
  (MINYEAR <=? y) && (y <=? MAXYEAR) && (1 <=? m) && (m <=? 12) &&
  (1 <=? d) && (d <=? days_in_month y m).

(** [check_time_args]. *)
Definition check_time (hh mi s us : Z) : bool :=
  (0 <=? hh) && (hh <=? 23) && (0 <=? mi) && (mi <=? 59) &&
  (0 <=? s) && (s <=? 59) && (0 <=? us) && (us <=? 999999).

(** [date(year, month, day)]. *)
Definition py_date (args : list PyObj) : PyResult PyObj :=
  match c_ints args with
  | Ok [y; m; d] => if check_date y m d then Ok (PDate y m d) else Raise value_error
  | Ok _ => Raise type_error
  | Raise e => Raise e
  end.

(** [time(hour, minute, second, microsecond)]. *)
Definition py_time (args : list PyObj) : PyResult PyObj :=
  match c_ints args with
  | Ok [hh; mi; s; us] => if check_time hh mi s us then Ok (PTime hh mi s us None) else Raise value_error
  | Ok _ => Raise type_error
  | Raise e => Raise e
  end.

(** [datetime(year, ..., microsecond, tzinfo=tz)]. *)
Definition py_datetime (args : list PyObj) (tz : option Z) : PyResult PyObj :=
  match c_ints args with
  | Ok [y; m; d; hh; mi; s; us] =>
      if check_date y m d && check_time hh mi s us
      then Ok (PDateTime y m d hh mi s us tz) else Raise value_error
  | Ok _ => Raise type_error
  | Raise e => Raise e
  end.

(** [timedelta(minutes=u)], normalised to [(days, seconds)] with
    [0 <= seconds < 86400]; more than 999999999 days overflow. *)
Definition py_timedelta_minutes (u : PyObj) : PyResult (Z * Z) :=
  match u with
  | PInt z | PFloat z =>
      let days := z / 1440 in
      if 999999999 <? Z.abs days then Raise overflow_error
      else Ok (days, (z mod 1440) * 60)
  | PBool b => Ok (0, if b then 60 else 0)
  | _ => Raise type_error
  end.

(** [dt - td] on a datetime ([add_datetime_timedelta] with factor -1);
    the result keeps [dt]'s tzinfo. *)
Definition sub_timedelta (dt : PyObj) (td : Z * Z) : PyResult PyObj :=
  match dt with
  | PDateTime y m d hh mi s us tz =>
      match normalize_datetime y m (d - fst td) hh mi (s - snd td) us with
      | Ok (y, m, d, hh, mi, s, us) => Ok (PDateTime y m d hh mi s us tz)
      | Raise e => Raise e
      end
  | _ => Raise type_error
  end.

(** Calling [def f(p1, p2=default, ...)] with the keyword arguments [kwargs]: an unknown
    keyword or a missing required argument is a [TypeError]. *)
Definition bind_args (params : list (string * option PyObj)) (kwargs : Dict PyObj)
    : PyResult (list PyObj) :=
  if existsb (fun kv => negb (existsb (fun p => String.eqb (fst p) (fst kv)) params)) kwargs
  then Raise type_error
  else
    fold_right (fun p acc =>
      match acc with
      | Raise e => Raise e
      | Ok vs =>
          match dict_get kwargs (fst p), snd p with
          | Some v, _ | None, Some v => Ok (v :: vs)
          | None, None => Raise type_error
          end
      end) (Ok []) params.

(* ---- the dumpers and loaders ---- *)

(** [dump_datetime]. *)
Definition dump_datetime (y m d hh mi s us : Z) (tz : option Z) : Dict PyObj :=
  [("year", PInt y); ("month", PInt m); ("day", PInt d); ("hour", PInt hh);
   ("minute", PInt mi); ("second", PInt s); ("microsecond", PInt us);
   ("utcoffset", match tz with Some k => PFloat k | None => PNone end)].

(** [load_datetime(year, month, day, hour=0, minute=0, second=0,
    microsecond=0, utcoffset=None)]. *)
Definition load_datetime (kwargs : Dict PyObj) : PyResult PyObj :=
  match bind_args [("year", None); ("month", None); ("day", None); ("hour", Some (PInt 0));
                   ("minute", Some (PInt 0)); ("second", Some (PInt 0));
                   ("microsecond", Some (PInt 0)); ("utcoffset", Some PNone)] kwargs with
  | Ok [y; m; d; hh; mi; s; us; utcoffset] =>
      match utcoffset with
      | PNone => py_datetime [y; m; d; hh; mi; s; us] None
      | _ =>
          match py_datetime [y; m; d; hh; mi; s; us] (Some 0) with
          | Raise e => Raise e
          | Ok dt =>
              match py_timedelta_minutes utcoffset with
              | Raise e => Raise e
              | Ok td => sub_timedelta dt td
              end
          end
      end
  | Ok _ => Raise type_error
  | Raise e => Raise e
  end.

(** [dump_date]. *)
Definition dump_date (y m d : Z) : Dict PyObj :=
  [("year", PInt y); ("month", PInt m); ("day", PInt d)].

(** [load_date(year, month, day)]. *)
Definition load_date (kwargs : Dict PyObj) : PyResult PyObj :=
  match bind_args [("year", None); ("month", None); ("day", None)] kwargs with
  | Ok args => py_date args
  | Raise e => Raise e
  end.

(** [dump_time]: the tzinfo is not written. *)
Definition dump_time (hh mi s us : Z) : Dict PyObj :=
  [("hour", PInt hh); ("minute", PInt mi); ("second", PInt s); ("microsecond", PInt us)].

(** [load_time(hour=0, minute=0, second=0, microsecond=0)]. *)
Definition load_time (kwargs : Dict PyObj) : PyResult PyObj :=
  match bind_args [("hour", Some (PInt 0)); ("minute", Some (PInt 0));
                   ("second", Some (PInt 0)); ("microsecond", Some (PInt 0))] kwargs with
  | Ok args => py_time args
  | Raise e => Raise e
  end.

(** [Serializer.loaders]. *)
Definition loaders : list (string * (Dict PyObj -> PyResult PyObj)) :=
  [("datetime", load_datetime); ("date", load_date); ("time", load_time)].

(** [Serializer.before_dump(obj)]: the dumpers are tried in registration
    order (datetime, date, time) with [isinstance], and a [datetime] is also
    a [date]. *)
Definition before_dump (obj : PyObj) : PyResult PyObj :=
  match obj with
  | PSerializable r => r
  | PDateTime y m d hh mi s us tz =>
      Ok (PDict (dict_set (dump_datetime y m d hh mi s us tz) "_type" (PStr "datetime")))
  | PDate y m d => Ok (PDict (dict_set (dump_date y m d) "_type" (PStr "date")))
  | PTime hh mi s us _ => Ok (PDict (dict_set (dump_time hh mi s us) "_type" (PStr "time")))
  | _ => Raise type_error
  end.

(** [del obj[k]] on a key that is present. *)
Fixpoint dict_del {V} (d : Dict V) (k : string) : Dict V :=
  match d with
  | [] => []
  | (k', v) :: d' => if String.eqb k k' then d' else (k', v) :: dict_del d' k
  end.

(** [Serializer.after_load(obj)], the [object_hook] of every decoded
    JSON object: [self.loaders[type_]] raises [KeyError] (caught) for a
    hashable value that is not a registered name, and [TypeError] (not
    caught) for an unhashable one. *)
Definition after_load (obj : Dict PyObj) : PyResult PyObj :=
  match dict_get obj "_type" with
  | None => Ok (PDict obj)
  | Some (PList _) | Some (PDict _) => Raise type_error
  | Some (PStr name) =>
      match dict_get loaders name with
      | None => Ok (PDict obj)
      | Some loader => loader (dict_del obj "_type")
      end
  | Some _ => Ok (PDict obj)
  end.

(** Minutes since 0001-01-01T00:00 of the wall-clock fields. *)
Definition wall_minutes (y m d hh mi : Z) : Z := ((ymd_to_ord y m d - 1) * 24 + hh) * 60 + mi.

(** [loads(dumps(obj))] for a date, time or datetime: the dict returned
    by [before_dump] holds ints, an integral float or [None]; it is written
    and read back as the same dict, which goes to [after_load]. *)
Definition reload (obj : PyObj) : PyResult PyObj :=
  match before_dump obj with Ok (PDict d) => after_load d | r => r end.

(** A [date], [time] or [datetime] object. *)
Definition is_temporal (o : PyObj) : bool :=
  match o with PDate _ _ _ | PTime _ _ _ _ _ | PDateTime _ _ _ _ _ _ _ _ => true | _ => false end.

End Serializer.

(* ------------------------------------------------------------------------- *)
(** * Proofs: exception taxonomy                                             *)
(* ------------------------------------------------------------------------- *)

Module ExcProofs.
Import Specs Examples.

Lemma dict_has_false {V} (d : Dict V) k : dict_get d k = None -> dict_has d k = false.
Proof. unfold dict_has. intros ->. reflexivity. Qed.

Lemma dict_get_none_notin {V} (d : Dict V) k : dict_get d k = None <-> ~ In k (map fst d).
Proof.
  induction d as [|[k' v] d IH]; simpl.
  - tauto.
  - destruct (String.eqb_spec k k') as [->|Hne].
    + split; [discriminate | intros H; exfalso; apply H; left; reflexivity].
    + rewrite IH. split; intros H H'; apply H; [destruct H' as [H'|H']; [congruence|exact H'] | right; exact H'].
Qed.

Lemma dict_set_absent {V} (d : Dict V) k v : dict_get d k = None -> dict_set d k v = app d [(k, v)].
Proof.
  induction d as [|[k' v'] d IH]; simpl; intros H; [reflexivity|].
  destruct (String.eqb k k'); [discriminate|]. rewrite IH by exact H. reflexivity.
Qed.

Lemma dict_get_in {V} (d : Dict V) k v : dict_get d k = Some v -> In (k, v) d.
Proof.
  induction d as [|[k' v'] d IH]; simpl; [discriminate|].
  destruct (String.eqb_spec k k') as [->|_]; intros H.
  - inversion H; subst. left; reflexivity.
  - right; auto.
Qed.

Lemma string_app_assoc (a b c : string) : ((a ++ b) ++ c)%string = (a ++ (b ++ c))%string.
Proof. induction a; simpl; [reflexivity | rewrite IHa; reflexivity]. Qed.

Lemma concat_cons (x : string) (l : list string) :
  l <> [] -> String.concat "." (x :: l) = (x ++ "." ++ String.concat "." l)%string.
Proof. destruct l; [congruence | reflexivity]. Qed.

Lemma concat_snoc (l : list string) (s : string) :
  l <> [] -> String.concat "." (app l [s]) = (String.concat "." l ++ "." ++ s)%string.
Proof.
  induction l as [|x l IH]; intros Hne; [congruence|].
  destruct l as [|y l]; [reflexivity|].
  rewrite <- app_comm_cons.
  rewrite concat_cons by (intros Hc; apply app_eq_nil in Hc; destruct Hc; discriminate).
  rewrite IH by discriminate. rewrite (concat_cons x) by discriminate.
  rewrite !string_app_assoc. reflexivity.
Qed.

Lemma mk_class_code_chain reg p s id m :
  registry_wf reg -> parent_ok reg p ->
  cls_chain (mk_class p s id m) <> [] /\
  cls_code (mk_class p s id m) = String.concat "." (cls_chain (mk_class p s id m)).
Proof.
  intros [_ Hwf] Hp. destruct p as [pc|]; simpl.
  - apply dict_get_in in Hp. destruct (Hwf _ _ Hp) as [_ [Hne Hcode]].
    split; [destruct (cls_chain pc); simpl; discriminate|].
    rewrite concat_snoc by exact Hne. rewrite Hcode. reflexivity.
  - split; [discriminate | reflexivity].
Qed.

Lemma define_class_wf reg p s id m c reg' :
  registry_wf reg -> parent_ok reg p -> define_class reg p s id m = Ok (c, reg') ->
  registry_wf reg'.
Proof.
  intros Hwf Hp Hdef. unfold define_class in Hdef.
  destruct (dict_has reg (cls_code (mk_class p s id m))) eqn:Hhas; [discriminate|].
  inversion Hdef; subst c reg'. clear Hdef.
  assert (Hnone : dict_get reg (cls_code (mk_class p s id m)) = None).
  { unfold dict_has in Hhas. destruct (dict_get reg _); [discriminate|reflexivity]. }
  rewrite dict_set_absent by exact Hnone.
  destruct (mk_class_code_chain reg p s id m Hwf Hp) as [Hne Hcode].
  destruct Hwf as [Hnd Hwf]. split.
  - rewrite map_app. simpl. apply NoDup_app; [exact Hnd | constructor; [intros []| constructor] |].
    intros x Hx Hx'. destruct Hx' as [<-|[]].
    apply dict_get_none_notin in Hnone. contradiction.
  - intros k c Hin. apply in_app_or in Hin. destruct Hin as [Hin|[Heq|[]]].
    + exact (Hwf _ _ Hin).
    + inversion Heq; subst. auto.
Qed.

(** C6: every registry built by class definitions maps each code to exactly
    one class ([NoDup] keys), whose code is the dot-join of the short codes
    along its declared subclass chain; defining a class whose code is
    registered already fails the assertion of [__init_subclass__] (the
    class statement raises) and registers nothing. *)
Theorem registry_codes_unique_and_composed (reg : Registry) (H : Loaded reg) :
  registry_wf reg /\
  forall p s id m,
    dict_has reg (cls_code (mk_class p s id m)) = true ->
    define_class reg p s id m = Raise assertion_error.
Proof.
  split.
  - induction H as [|reg p s id m c reg' Hl IH Hp Hdef].
    + split; [constructor | intros k c []].
    + exact (define_class_wf reg p s id m c reg' IH Hp Hdef).
  - intros p s id m Hhas. unfold define_class. cbv zeta. rewrite Hhas. reflexivity.
Qed.

Lemma registry_codes_unique_and_composed_witness :
  Loaded reg3 /\ registry_wf reg3 /\
  cls_code rpc_invalid_params = "error.rpc.invalid_params" /\
  define_class reg3 (Some base_error) "rpc" 13 None = Raise assertion_error.
Proof.
  assert (HL : Loaded reg3).
  { eapply loaded_define with (p := Some rpc_error) (s := "invalid_params") (id := 11)
      (m := Some "Invalid parameters").
    - eapply loaded_define with (p := Some base_error) (s := "rpc") (id := 6) (m := None).
      + eapply loaded_define with (p := None) (s := "error") (id := 3) (m := None).
        * exact loaded_empty.
        * exact I.
        * reflexivity.
      + reflexivity.
      + reflexivity.
    - reflexivity.
    - reflexivity. }
  split; [exact HL|].
  split; [exact (proj1 (registry_codes_unique_and_composed reg3 HL))|].
  split; [reflexivity|].
  apply (proj2 (registry_codes_unique_and_composed reg3 HL)). reflexivity.
Defined.

Lemma exc_init_message c m0 data v :
  exc_init c m0 data = Ok v ->
  exists m, v = ECoded c (Some m) data /\ py_or m0 (cls_message c) = Some m.
Proof.
  unfold exc_init. destruct (py_or m0 (cls_message c)) as [m|] eqn:E; [|discriminate].
  intros H. inversion H; subst. eauto.
Qed.

Lemma py_or_idem m0 d m : py_or m0 d = Some m -> py_or (Some m) d = Some m.
Proof.
  unfold py_or. destruct m0 as [s|].
  - destruct (String.eqb_spec s "") as [->|Hne]; intros H.
    + destruct (String.eqb_spec m "") as [->|_]; [exact H | reflexivity].
    + inversion H; subst. destruct (String.eqb_spec m "") as [->|_]; [congruence | reflexivity].
  - intros H. destruct (String.eqb_spec m "") as [->|_]; [exact H | reflexivity].
Qed.

(** C5 (amended): [dispatch] rebuilds a registered variant instance from its
    [dump()] triple, up to [__eq__], provided its data has no key named
    [cls], [code], [message] or [self]; for an unregistered code and data
    with no key [cls], [code] or [message], [dispatch] returns an
    [UndefinedExc] whose [data] is exactly
    [{"original": {"code": code, "message": message, "data": data}}].
    Data with a key [cls], [code] or [message] makes [dispatch] raise
    [TypeError] whatever the code; for a registered code, a key [self] does
    too (it clashes with a parameter of [__init__]). *)
Theorem exc_dispatch_roundtrip :
  (forall reg c m0 data v code msg d,
     dict_get reg (cls_code c) = Some c ->
     exc_init c m0 data = Ok v ->
     dump v = Some (code, msg, d) ->
     reserved_free d ->
     exists w, dispatch_call reg code msg d = Ok w /\ exc_eq w v) /\
  (forall reg code msg d,
     dict_get reg code = None ->
     dispatch_free d ->
     dispatch_call reg code msg d =
       Ok (ECoded undefined_exc (Some "Undefined exception")
             [("original", VDict [("code", VStr code); ("message", opt_str msg);
                                  ("data", VDict d)])])) /\
  (forall reg code msg d,
     ~ dispatch_free d -> dispatch_call reg code msg d = Raise type_error) /\
  (forall reg code c msg d,
     dict_get reg code = Some c -> dict_has d "self" = true ->
     dispatch_call reg code msg d = Raise type_error).
Proof.
  assert (Hfree : forall d, reserved_free d ->
            dict_has d "cls" = false /\ dict_has d "code" = false /\
            dict_has d "message" = false /\ dict_has d "self" = false).
  { intros d Hd. repeat split; apply dict_has_false, Hd; simpl; tauto. }
  split; [|split; [|split]].
  - intros reg c m0 data v code msg d Hreg Hinit Hdump Hd.
    destruct (exc_init_message _ _ _ _ Hinit) as [m [-> Hm]].
    simpl in Hdump. inversion Hdump; subst code msg d. clear Hdump.
    destruct (Hfree _ Hd) as [H1 [H2 [H3 H4]]].
    unfold dispatch_call. rewrite H1, H2, H3. simpl. rewrite Hreg.
    unfold init_call. rewrite H4, H3. simpl.
    unfold exc_init. rewrite (py_or_idem _ _ _ Hm).
    eexists; split; [reflexivity|]. simpl. repeat split; reflexivity.
  - intros reg code msg d Hreg Hd. unfold dispatch_call.
    rewrite (dict_has_false d "cls"), (dict_has_false d "code"), (dict_has_false d "message")
      by (apply Hd; simpl; tauto).
    simpl. rewrite Hreg. reflexivity.
  - intros reg code msg d Hn. unfold dispatch_call.
    destruct (dict_has d "cls" || dict_has d "code" || dict_has d "message") eqn:E; [reflexivity|].
    exfalso. apply Hn. rewrite !orb_false_iff in E. destruct E as [[E1 E2] E3].
    intros k Hk. simpl in Hk.
    destruct Hk as [<-|[<-|[<-|[]]]]; unfold dict_has in *;
      [destruct (dict_get d "cls") | destruct (dict_get d "code") | destruct (dict_get d "message")];
      congruence.
  - intros reg code c msg d Hreg Hs. unfold dispatch_call.
    destruct (dict_has d "cls" || dict_has d "code" || dict_has d "message"); [reflexivity|].
    rewrite Hreg. unfold init_call. rewrite Hs. reflexivity.
Qed.

Lemma exc_dispatch_roundtrip_witness :
  exists w, dispatch_call builtin_registry "error.rpc.internal" (Some "Internal server error")
              [("method", VStr "sum")] = Ok w /\
            exc_eq w (ECoded rpc_internal_error (Some "Internal server error") [("method", VStr "sum")]).
Proof.
  apply (proj1 exc_dispatch_roundtrip builtin_registry rpc_internal_error None [("method", VStr "sum")]).
  - vm_compute. reflexivity.
  - reflexivity.
  - reflexivity.
  - intros k Hk. simpl in Hk.
    repeat (destruct Hk as [<-|Hk]; [reflexivity|]). destruct Hk.
Defined.

(** C5 fails as stated: [RPCInternalError(code=404)] is a registered variant
    instance, and [dispatch] of its dump raises [TypeError] (two values for
    the parameter [code]). *)
Lemma exc_dispatch_roundtrip_counterexample :
  exc_init rpc_internal_error None [("code", VInt 404)] =
    Ok (ECoded rpc_internal_error (Some "Internal server error") [("code", VInt 404)]) /\
  dict_get builtin_registry "error.rpc.internal" = Some rpc_internal_error /\
  dispatch_call builtin_registry "error.rpc.internal" (Some "Internal server error")
    [("code", VInt 404)] = Raise type_error.
Proof. vm_compute. repeat split. Qed.

End ExcProofs.

(* ------------------------------------------------------------------------- *)
(** * Proofs: stable sort and int-keyed dicts                                *)
(* ------------------------------------------------------------------------- *)

Module SortProofs.

Section InsertionSort.
Context {A : Type} (le : A -> A -> bool).
Hypothesis le_total : forall a b, le a b = false -> le b a = true.
Let R := fun a b => le a b = true.

Lemma insert_by_perm x l : Permutation (insert_by le x l) (x :: l).
Proof.
  induction l as [|y l IH]; simpl; [reflexivity|].
  destruct (le y x).
  - rewrite IH. apply perm_swap.
  - reflexivity.
Qed.

Lemma sort_by_perm_acc l acc : Permutation (fold_left (fun a x => insert_by le x a) l acc) (app acc l).
Proof.
  revert acc; induction l as [|x l IH]; intros acc; simpl.
  - rewrite app_nil_r. reflexivity.
  - rewrite IH. rewrite insert_by_perm. simpl.
    apply Permutation_middle.
Qed.

Lemma sort_by_perm l : Permutation (sort_by le l) l.
Proof. unfold sort_by. rewrite sort_by_perm_acc. reflexivity. Qed.

Lemma insert_by_sorted x l : Sorted R l -> Sorted R (insert_by le x l).
Proof.
  induction l as [|y l IH]; simpl; intros H.
  - repeat constructor.
  - destruct (le y x) eqn:E.
    + inversion H as [|? ? Hs Hhd]; subst.
      constructor; [apply IH; exact Hs|].
      destruct l as [|z l]; simpl.
      * constructor. exact E.
      * destruct (le z x); constructor; [inversion Hhd; assumption | exact E].
    + constructor; [exact H|]. constructor. apply le_total. exact E.
Qed.

Lemma sort_by_sorted l : Sorted R (sort_by le l).
Proof.
  unfold sort_by.
  assert (Hacc : forall acc, Sorted R acc -> Sorted R (fold_left (fun a x => insert_by le x a) l acc)).
  { induction l as [|x l IH]; intros acc Hs; simpl; [exact Hs|].
    apply IH. apply insert_by_sorted. exact Hs. }
  apply Hacc. constructor.
Qed.

End InsertionSort.

End SortProofs.

Module StableSortProofs.

Section Stable.
Context {A : Type} (le : A -> A -> bool).
Hypothesis le_total : forall a b, le a b = false -> le b a = true.
Hypothesis le_trans : forall a b c, le a b = true -> le b c = true -> le a c = true.
Variable z : A.
Let eqz (x : A) : bool := le x z && le z x.

Lemma filter_none (f : A -> bool) l : (forall w, In w l -> f w = false) -> filter f l = [].
Proof.
  induction l as [|w l IH]; intros H; simpl; [reflexivity|].
  rewrite (H w (or_introl eq_refl)). apply IH. intros u Hu. apply H. right. exact Hu.
Qed.

Lemma sorted_head_le y l : Sorted (fun a b => le a b = true) (y :: l) -> forall w, In w l -> le y w = true.
Proof.
  intros Hs. apply Sorted_StronglySorted in Hs.
  - inversion Hs as [|? ? _ Hall]; subst. intros w Hw. rewrite Forall_forall in Hall. exact (Hall w Hw).
  - intros a b c Hab Hbc. exact (le_trans a b c Hab Hbc).
Qed.

Lemma insert_by_filter x l : Sorted (fun a b => le a b = true) l ->
  filter eqz (insert_by le x l) = app (filter eqz l) (if eqz x then [x] else []).
Proof.
  induction l as [|y l IH]; intros Hs; simpl.
  - destruct (eqz x); reflexivity.
  - destruct (le y x) eqn:Eyx.
    + simpl. rewrite IH by (inversion Hs; assumption). destruct (eqz y); reflexivity.
    + simpl. destruct (eqz x) eqn:Ex.
      * assert (Hnone : filter eqz (y :: l) = []).
        { apply filter_none. intros w Hw.
          assert (Hyw : le y w = true).
          { destruct Hw as [<-|Hw].
            - destruct (le y y) eqn:Eyy; [reflexivity|]. pose proof (le_total y y Eyy). congruence.
            - exact (sorted_head_le y l Hs w Hw). }
          unfold eqz in Ex |- *. apply andb_true_iff in Ex as [_ Hzx].
          destruct (le w z) eqn:Ewz; [|reflexivity]. simpl.
          pose proof (le_trans _ _ _ Hyw (le_trans _ _ _ Ewz Hzx)). congruence. }
        simpl in Hnone. rewrite Hnone. reflexivity.
      * rewrite app_nil_r. reflexivity.
Qed.

Lemma sort_by_filter_acc l acc : Sorted (fun a b => le a b = true) acc ->
  filter eqz (fold_left (fun a x => insert_by le x a) l acc) = app (filter eqz acc) (filter eqz l).
Proof.
  revert acc. induction l as [|x l IH]; intros acc Hs; simpl.
  - rewrite app_nil_r. reflexivity.
  - rewrite IH by (apply SortProofs.insert_by_sorted; assumption).
    rewrite insert_by_filter by exact Hs. rewrite <- app_assoc. destruct (eqz x); reflexivity.
Qed.

Lemma sort_by_filter l : filter eqz (sort_by le l) = filter eqz l.
Proof. unfold sort_by. rewrite sort_by_filter_acc by constructor. reflexivity. Qed.

End Stable.

End StableSortProofs.

Module ZDictProofs.

Lemma zget_zset {V} (d : ZDict V) k v k' :
  zget (zset d k v) k' = if Z.eqb k' k then Some v else zget d k'.
Proof.
  induction d as [|[k0 v0] d IH]; simpl.
  - destruct (Z.eqb k' k); reflexivity.
  - destruct (Z.eqb_spec k k0) as [->|Hne]; simpl.
    + destruct (Z.eqb k' k0); reflexivity.
    + rewrite IH. destruct (Z.eqb_spec k' k0); destruct (Z.eqb_spec k' k); subst; congruence.
Qed.

Lemma zset_in {V} (d : ZDict V) k v k' a :
  In (k', a) (zset d k v) -> (k' = k /\ a = v) \/ In (k', a) d.
Proof.
  induction d as [|[k0 v0] d IH]; simpl.
  - intros [H|[]]. inversion H; subst. left; auto.
  - destruct (Z.eqb_spec k k0) as [->|Hne]; simpl; intros [H|H].
    + inversion H; subst. left; auto.
    + right; right; exact H.
    + right; left; exact H.
    + destruct (IH H) as [?|?]; [left|right; right]; assumption.
Qed.

Lemma zget_in {V} (d : ZDict V) k a : zget d k = Some a -> In (k, a) d.
Proof.
  induction d as [|[k0 v0] d IH]; simpl; [discriminate|].
  destruct (Z.eqb_spec k k0) as [->|_]; intros H.
  - inversion H; subst. left; reflexivity.
  - right; auto.
Qed.

Lemma in_zget {V} (d : ZDict V) k a : In (k, a) d -> zget d k <> None.
Proof.
  induction d as [|[k0 v0] d IH]; simpl; [tauto|].
  destruct (Z.eqb_spec k k0) as [->|Hne]; intros [H|H]; try discriminate.
  - inversion H; subst; congruence.
  - apply IH; exact H.
Qed.

Lemma zset_keys_present {V} (d : ZDict V) k v :
  zget d k <> None -> map fst (zset d k v) = map fst d.
Proof.
  induction d as [|[k0 v0] d IH]; simpl; [congruence|].
  destruct (Z.eqb_spec k k0) as [->|_]; simpl; intros H; [reflexivity|].
  rewrite IH by exact H. reflexivity.
Qed.

Lemma zset_keys_absent {V} (d : ZDict V) k v :
  zget d k = None -> map fst (zset d k v) = app (map fst d) [k].
Proof.
  induction d as [|[k0 v0] d IH]; simpl; [reflexivity|].
  destruct (Z.eqb_spec k k0) as [->|_]; simpl; intros H; [discriminate|].
  rewrite IH by exact H. reflexivity.
Qed.

Lemma strongly_sorted_snoc (l : list Z) x :
  StronglySorted Z.lt l -> (forall y, In y l -> y < x)%Z -> StronglySorted Z.lt (app l [x]).
Proof.
  induction l as [|y l IH]; simpl; intros Hs Hlt.
  - repeat constructor.
  - inversion Hs as [|? ? Hs' Hf]; subst. constructor.
    + apply IH; auto.
    + apply Forall_app. split; [exact Hf|]. constructor; [apply Hlt; left; reflexivity | constructor].
Qed.

(** The first entry of a key-ordered dict satisfying [m < key] has the least
    such key. *)
Lemma find_least {V} (d : ZDict V) m k a :
  StronglySorted Z.lt (map fst d) ->
  find (fun '(minor, _) => Z.ltb m minor) d = Some (k, a) ->
  In (k, a) d /\ (m < k)%Z /\ forall k' a', In (k', a') d -> (m < k')%Z -> (k <= k')%Z.
Proof.
  induction d as [|[k0 a0] d IH]; simpl; [discriminate|].
  intros Hs. inversion Hs as [|? ? Hs' Hf]; subst.
  destruct (Z.ltb_spec m k0) as [Hlt|Hge]; intros H.
  - inversion H; subst. split; [left; reflexivity|]. split; [exact Hlt|].
    intros k' a' [Heq|Hin] _; [inversion Heq; lia|].
    rewrite Forall_forall in Hf. specialize (Hf k' (in_map fst _ _ Hin)). simpl in Hf. lia.
  - destruct (IH Hs' H) as [Hin [Hlt Hmin]]. split; [right; exact Hin|]. split; [exact Hlt|].
    intros k' a' [Heq|Hin'] Hk'; [inversion Heq; lia|]. exact (Hmin k' a' Hin' Hk').
Qed.

Lemma find_none_all {V} (d : ZDict V) m :
  (forall k a, In (k, a) d -> (k < m)%Z) ->
  find (fun '(minor, _) => Z.ltb m minor) d = None.
Proof.
  induction d as [|[k0 a0] d IH]; simpl; intros H; [reflexivity|].
  assert (k0 < m)%Z by (apply (H k0 a0); left; reflexivity).
  destruct (Z.ltb_spec m k0); [lia|]. apply IH. intros k a Hin. apply (H k a); right; exact Hin.
Qed.

End ZDictProofs.

(* ------------------------------------------------------------------------- *)
(** * Proofs: API version table and negotiation                              *)
(* ------------------------------------------------------------------------- *)

Module ApiProofs.
Import Rpc ZDictProofs Props.

Lemma ver_le_total a b : ver_le a b = false -> ver_le b a = true.
Proof.
  unfold ver_le. destruct (av_version a) as [M1 m1], (av_version b) as [M2 m2].
  destruct (Z.ltb_spec M1 M2), (Z.eqb_spec M1 M2), (Z.leb_spec m1 m2),
           (Z.ltb_spec M2 M1), (Z.eqb_spec M2 M1), (Z.leb_spec m2 m1); simpl; try lia; reflexivity.
Qed.

Lemma ver_le_trans a b c : ver_le a b = true -> ver_le b c = true -> ver_le a c = true.
Proof.
  unfold ver_le. destruct (av_version a) as [M1 m1], (av_version b) as [M2 m2], (av_version c) as [M3 m3].
  rewrite !orb_true_iff, !andb_true_iff, !Z.ltb_lt, !Z.eqb_eq, !Z.leb_le. lia.
Qed.


Lemma add_version_inv acc P v :
  VInv acc P -> (forall p, In p P -> ver_le p v = true) -> VInv (add_version acc v) (app P [v]).
Proof.
  intros [H1 H2] Hle. unfold add_version.
  destruct (av_version v) as [M m] eqn:Ev.
  set (majors0 := match zget acc M with Some d => d | None => [] end).
  assert (Hm0 : forall k av, In (k, av) majors0 -> In av P /\ av_version av = (M, k)).
  { unfold majors0. destruct (zget acc M) as [d|] eqn:Ed; [exact (proj1 (H1 _ _ Ed))|intros ? ? []]. }
  assert (Hs0 : StronglySorted Z.lt (map fst majors0)).
  { unfold majors0. destruct (zget acc M) as [d|] eqn:Ed; [exact (proj2 (H1 _ _ Ed))|constructor]. }
  split.
  - intros M' majors H. rewrite zget_zset in H.
    destruct (Z.eqb_spec M' M) as [->|Hne].
    + inversion H; subst majors. clear H. split.
      * intros k av Hin. destruct (zset_in _ _ _ _ _ Hin) as [[-> ->]|Hin'].
        -- split; [apply in_or_app; right; left; reflexivity | exact Ev].
        -- destruct (Hm0 _ _ Hin') as [HP Hv]. split; [apply in_or_app; left; exact HP | exact Hv].
      * destruct (zget majors0 m) eqn:Eg.
        -- rewrite zset_keys_present by congruence. exact Hs0.
        -- rewrite zset_keys_absent by exact Eg. apply strongly_sorted_snoc; [exact Hs0|].
           intros y Hy. apply in_map_iff in Hy. destruct Hy as [[k av] [Hk Hin]]. simpl in Hk. subst k.
           destruct (Hm0 _ _ Hin) as [HP Hv]. specialize (Hle _ HP). unfold ver_le in Hle.
           rewrite Hv, Ev in Hle. apply in_zget in Hin.
           destruct (Z.eqb_spec y m) as [->|Hne']; [congruence|].
           rewrite orb_true_iff, andb_true_iff, Z.ltb_lt, Z.eqb_eq, Z.leb_le in Hle. lia.
    + destruct (H1 _ _ H) as [Ha Hb]. split; [|exact Hb].
      intros k av Hin. destruct (Ha _ _ Hin) as [HP Hv].
      split; [apply in_or_app; left; exact HP | exact Hv].
  - intros v' Hin. apply in_app_or in Hin. destruct Hin as [Hin|[<-|[]]].
    + destruct (H2 _ Hin) as [majors [Hg Hn]].
      rewrite zget_zset. destruct (Z.eqb_spec (fst (av_version v')) M) as [Heq|Hne].
      * eexists; split; [reflexivity|]. rewrite zget_zset.
        destruct (Z.eqb (snd (av_version v')) m); [discriminate|].
        unfold majors0. rewrite <- Heq, Hg. exact Hn.
      * exists majors. split; [exact Hg | exact Hn].
    + rewrite Ev. simpl. rewrite zget_zset, Z.eqb_refl.
      eexists; split; [reflexivity|]. rewrite zget_zset, Z.eqb_refl. discriminate.
Qed.

Lemma fold_add_version_inv l acc P :
  VInv acc P -> StronglySorted (fun a b => ver_le a b = true) l ->
  (forall p x, In p P -> In x l -> ver_le p x = true) ->
  VInv (fold_left add_version l acc) (app P l).
Proof.
  revert acc P. induction l as [|x l IH]; intros acc P Hinv Hs Hpl; simpl.
  - rewrite app_nil_r. exact Hinv.
  - inversion Hs as [|? ? Hs' Hf]; subst. rewrite Forall_forall in Hf.
    replace (app P (x :: l)) with (app (app P [x]) l) by (rewrite <- app_assoc; reflexivity).
    apply IH; [| exact Hs' |].
    + apply add_version_inv; [exact Hinv|]. intros p Hp. apply Hpl; [exact Hp | left; reflexivity].
    + intros p y Hp Hy. apply in_app_or in Hp. destruct Hp as [Hp|[<-|[]]].
      * apply Hpl; [exact Hp | right; exact Hy].
      * apply Hf; exact Hy.
Qed.

(** [API._versions] groups exactly the registered versions by major, each
    group keyed by minor in ascending order. *)
Lemma api_versions_spec deps :
  (forall M majors, zget (api_versions deps) M = Some majors ->
     (forall k av, In (k, av) majors -> In av (registered deps) /\ av_version av = (M, k)) /\
     StronglySorted Z.lt (map fst majors)) /\
  (forall v, In v (registered deps) ->
     exists majors, zget (api_versions deps) (fst (av_version v)) = Some majors /\
                    zget majors (snd (av_version v)) <> None).
Proof.
  pose proof (SortProofs.sort_by_perm ver_le (registered deps)) as Hperm.
  assert (Hss : StronglySorted (fun a b => ver_le a b = true) (sort_by ver_le (registered deps))).
  { apply Sorted_StronglySorted; [intros a b c; apply ver_le_trans|].
    apply SortProofs.sort_by_sorted. exact ver_le_total. }
  assert (Hinv : VInv (api_versions deps) (sort_by ver_le (registered deps))).
  { unfold api_versions. change (sort_by ver_le (registered deps))
      with (app [] (sort_by ver_le (registered deps))) at 2.
    apply fold_add_version_inv; [| exact Hss | intros p x []].
    split; [intros M majors H; discriminate | intros v []]. }
  destruct Hinv as [H1 H2]. split.
  - intros M majors H. destruct (H1 _ _ H) as [Ha Hb]. split; [|exact Hb].
    intros k av Hin. destruct (Ha _ _ Hin) as [HP Hv]. split; [|exact Hv].
    exact (Permutation_in _ Hperm HP).
  - intros v Hv. apply H2. apply (Permutation_in _ (Permutation_sym Hperm)). exact Hv.
Qed.


Lemma match_version_not_none {T} (ver : Value) (a b : T) :
  ver <> VNone -> match ver with VNone => a | _ => b end = b.
Proof. destruct ver; congruence. Qed.

(** The versioned path of [API.dispatch] once the pair is read. *)
Lemma api_dispatch_pair api_ns vt mws req ver M m :
  dict_get (rq_meta req) "version" = Some ver -> as_pair ver = Some (M, m) ->
  api_dispatch api_ns vt mws req =
  match zget vt M with
  | None => (Raise (raise_new rpc_unsupported_version [("version", ver)]), [])
  | Some majors =>
      match (match zget majors m with
             | Some av => Some av
             | None => match find (fun '(minor, _) => Z.ltb m minor) majors with
                       | Some (_, av) => Some av
                       | None => None
                       end
             end) with
      | None => (Raise (raise_new rpc_unsupported_version [("version", ver)]), [])
      | Some av =>
          disp_dispatch (av_ns av) (app mws (ns_middlewares api_ns))
            (set_meta req (dict_set (rq_meta req) "version" (version_value (av_version av))))
      end
  end.
Proof.
  intros Hget Hpair. unfold api_dispatch, meta_setdefault. rewrite Hget.
  rewrite match_version_not_none by (intros ->; discriminate).
  rewrite Hpair. unfold meta_get. simpl rq_meta. rewrite Hget. reflexivity.
Qed.

(** C1: version negotiation of [API.dispatch].  Without a version in
    [request.meta] the API dispatches on itself; for a requested pair
    [(M, m)]: no registered major [M] fails "unsupported version" with the
    requested pair; an exact match is served; otherwise the registered
    version of major [M] with the least minor above [m] is served; with no
    minor of [M] at or above [m] dispatch fails "unsupported version" with
    the requested pair.  A served version is written into
    [request.meta["version"]] of the request handed to that APIVersion's
    dispatch (after the API's own middleware). *)
Theorem api_version_negotiation (deps : list Component) (api_ns : Namespace)
    (mws : list MwDef) (req : Request) :
  let vt := api_versions deps in
  let vs := registered deps in
  let serve av := disp_dispatch (av_ns av) (app mws (ns_middlewares api_ns))
                    (set_meta req (dict_set (rq_meta req) "version" (version_value (av_version av)))) in
  (meta_get (rq_meta req) "version" = VNone ->
     api_dispatch api_ns vt mws req =
     disp_dispatch api_ns mws (set_meta req (fst (meta_setdefault (rq_meta req) "version" VNone)))) /\
  (forall ver M m,
     dict_get (rq_meta req) "version" = Some ver -> as_pair ver = Some (M, m) ->
     let unsupported := (Raise (raise_new rpc_unsupported_version [("version", ver)]), @nil PyExc) in
     ((forall v, In v vs -> fst (av_version v) <> M) -> api_dispatch api_ns vt mws req = unsupported) /\
     ((exists v, In v vs /\ av_version v = (M, m)) ->
        exists av, In av vs /\ av_version av = (M, m) /\ api_dispatch api_ns vt mws req = serve av) /\
     ((forall v, In v vs -> av_version v <> (M, m)) ->
      (exists v, In v vs /\ fst (av_version v) = M /\ (m < snd (av_version v))%Z) ->
        exists av, In av vs /\ fst (av_version av) = M /\ (m < snd (av_version av))%Z /\
          (forall v, In v vs -> fst (av_version v) = M -> (m < snd (av_version v))%Z ->
                     (snd (av_version av) <= snd (av_version v))%Z) /\
          api_dispatch api_ns vt mws req = serve av) /\
     ((forall v, In v vs -> fst (av_version v) = M -> (snd (av_version v) < m)%Z) ->
        api_dispatch api_ns vt mws req = unsupported)).
Proof.
  intros vt vs serve.
  destruct (api_versions_spec deps) as [H1 H2]. fold vt vs in H1, H2.
  split.
  - intros Hnone. unfold api_dispatch.
    destruct (meta_setdefault (rq_meta req) "version" VNone) as [meta version] eqn:E.
    assert (version = VNone) as ->.
    { unfold meta_setdefault, meta_get in *. destruct (dict_get (rq_meta req) "version");
        inversion E; subst; reflexivity. }
    reflexivity.
  - intros ver M m Hget Hpair unsupported.
    rewrite (api_dispatch_pair _ _ _ _ _ _ _ Hget Hpair).
    (* facts about the group of major [M] *)
    assert (Hgroup : forall majors, zget vt M = Some majors ->
              forall k av, In (k, av) majors -> In av vs /\ av_version av = (M, k))
      by (intros majors Hg; exact (proj1 (H1 _ _ Hg))).
    assert (Hunsup : (forall v, In v vs -> fst (av_version v) = M -> (snd (av_version v) < m)%Z) ->
                     api_dispatch api_ns vt mws req = unsupported).
    { intros Hall. rewrite (api_dispatch_pair _ _ _ _ _ _ _ Hget Hpair).
      destruct (zget vt M) as [majors|] eqn:Hg; [|reflexivity].
      assert (Hlt : forall k av, In (k, av) majors -> (k < m)%Z).
      { intros k av Hin. destruct (Hgroup _ eq_refl k av Hin) as [Hv Hver].
        pose proof (Hall av Hv) as Ha. rewrite Hver in Ha. simpl in Ha. apply Ha; reflexivity. }
      destruct (zget majors m) as [av|] eqn:Hm.
      + apply zget_in in Hm. specialize (Hlt _ _ Hm). lia.
      + rewrite find_none_all by exact Hlt. reflexivity. }
    rewrite <- (api_dispatch_pair api_ns vt mws req ver M m Hget Hpair).
    split; [|split; [|split]].
    + intros Hno. apply Hunsup. intros v Hv HM. exfalso. exact (Hno v Hv HM).
    + intros [v [Hv Hver]]. destruct (H2 v Hv) as [majors [Hg Hn]].
      rewrite Hver in Hg, Hn. simpl in Hg, Hn.
      destruct (zget majors m) as [av|] eqn:Hm; [|congruence].
      destruct (Hgroup _ Hg m av (zget_in _ _ _ Hm)) as [Hav Hverav].
      exists av. split; [exact Hav|]. split; [exact Hverav|].
      rewrite (api_dispatch_pair _ _ _ _ _ _ _ Hget Hpair), Hg, Hm.
      unfold serve. reflexivity.
    + intros Hnoexact [v [Hv [HM Hlt]]].
      destruct (H2 v Hv) as [majors [Hg Hn]]. rewrite HM in Hg.
      pose proof (proj2 (H1 _ _ Hg)) as Hsorted.
      assert (Hm : zget majors m = None).
      { destruct (zget majors m) as [av|] eqn:Hm; [|reflexivity].
        destruct (Hgroup _ Hg m av (zget_in _ _ _ Hm)) as [Hav Hverav].
        exfalso. exact (Hnoexact av Hav Hverav). }
      destruct (find (fun '(minor, _) => Z.ltb m minor) majors) as [[k av]|] eqn:Hf.
      * destruct (find_least majors m k av Hsorted Hf) as [Hin [Hmk Hmin]].
        destruct (Hgroup _ Hg k av Hin) as [Hav Hverav].
        exists av. rewrite Hverav. simpl. split; [exact Hav|]. split; [reflexivity|].
        split; [exact Hmk|]. split.
        -- intros v' Hv' HM' Hlt'. destruct (H2 v' Hv') as [majors' [Hg' Hn']].
           rewrite HM', Hg in Hg'. inversion Hg'; subst majors'.
           destruct (zget majors (snd (av_version v'))) as [a'|] eqn:E'; [|congruence].
           exact (Hmin _ _ (zget_in _ _ _ E') Hlt').
        -- rewrite (api_dispatch_pair _ _ _ _ _ _ _ Hget Hpair), Hg, Hm, Hf.
           unfold serve. rewrite Hverav. reflexivity.
      * exfalso. destruct (zget majors (snd (av_version v))) as [a|] eqn:E; [|congruence].
        apply zget_in in E.
        assert (Hnf : forall l, In (snd (av_version v), a) l ->
                  find (fun '(minor, _) => Z.ltb m minor) l <> None).
        { induction l as [|[k0 a0] l IH]; simpl; [tauto|].
          intros [Heq|Hin]; destruct (Z.ltb m k0) eqn:Ek; try discriminate.
          - inversion Heq; subst. apply Z.ltb_ge in Ek. lia.
          - apply IH; exact Hin. }
        exact (Hnf majors E Hf).
    + exact Hunsup.
Qed.

Lemma api_version_negotiation_witness :
  let req := Examples.sum_request [("version", version_value (2, 0)%Z)] in
  (exists av, In av (registered Examples.app_deps) /\ av_version av = (2, 1)%Z /\
     api_dispatch Examples.app_ns (api_versions Examples.app_deps) [] req =
     disp_dispatch (av_ns av) (app [] (ns_middlewares Examples.app_ns))
       (set_meta req (dict_set (rq_meta req) "version" (version_value (2, 1)%Z)))) /\
  fst (api_dispatch Examples.app_ns (api_versions Examples.app_deps) []
         (Examples.sum_request [("version", version_value (3, 0)%Z)])) =
    Raise (raise_new rpc_unsupported_version [("version", version_value (3, 0)%Z)]) /\
  fst (api_dispatch Examples.app_ns (api_versions Examples.app_deps) []
         (Examples.sum_request [("version", version_value (2, 2)%Z)])) =
    Raise (raise_new rpc_unsupported_version [("version", version_value (2, 2)%Z)]).
Proof.
  intros req. split; [|split; vm_compute; reflexivity].
  destruct (api_version_negotiation Examples.app_deps Examples.app_ns [] req) as [_ H].
  destruct (H (version_value (2, 0)%Z) 2%Z 0%Z eq_refl eq_refl) as (_ & _ & H3 & _).
  destruct H3 as (av & Hin & HM & _ & _ & Heq).
  - intros v Hv. simpl in Hv. destruct Hv as [<-|[<-|[]]]; discriminate.
  - exists Examples.v21. split; [simpl; auto|]. split; [reflexivity|]. simpl. lia.
  - exists av. simpl in Hin. destruct Hin as [<-|[<-|[]]]; [discriminate HM|].
    split; [simpl; auto|]. split; [reflexivity|]. exact Heq.
Defined.

End ApiProofs.

(* ------------------------------------------------------------------------- *)
(** * Proofs: dispatch, handler wrapper and middleware chain                 *)
(* ------------------------------------------------------------------------- *)

Module DispatchProofs.
Import Rpc Examples.

Lemma dict_get_set {V} (d : Dict V) k v k' :
  dict_get (dict_set d k v) k' = if String.eqb k' k then Some v else dict_get d k'.
Proof.
  induction d as [|[k0 v0] d IH]; simpl.
  - destruct (String.eqb k' k); reflexivity.
  - destruct (String.eqb_spec k k0) as [->|Hne]; simpl.
    + destruct (String.eqb k' k0); reflexivity.
    + rewrite IH. destruct (String.eqb_spec k' k0); destruct (String.eqb_spec k' k); subst; congruence.
Qed.

Lemma dict_get_app {V} (d1 d2 : Dict V) k :
  dict_get (app d1 d2) k = match dict_get d1 k with Some v => Some v | None => dict_get d2 k end.
Proof.
  induction d1 as [|[k0 v0] d1 IH]; simpl; [reflexivity|].
  destruct (String.eqb k k0); [reflexivity | exact IH].
Qed.

(** [dict(d, **e)]: the last item of [e] under a key wins, else [d]'s. *)
Lemma dict_get_update {V} (d e : Dict V) k :
  dict_get (dict_update d e) k =
  match dict_get (rev e) k with Some v => Some v | None => dict_get d k end.
Proof.
  unfold dict_update. revert d. induction e as [|[k0 v0] e IH]; intros d; simpl; [reflexivity|].
  rewrite IH, dict_get_app, dict_get_set. simpl.
  destruct (dict_get (rev e) k); [reflexivity|].
  destruct (String.eqb k k0); reflexivity.
Qed.

Lemma dict_get_nodup_in {V} (d : Dict V) k v :
  NoDup (map fst d) -> In (k, v) d -> dict_get d k = Some v.
Proof.
  induction d as [|[k0 v0] d IH]; simpl; [tauto|].
  intros Hnd Hin. inversion Hnd as [|? ? Hnotin Hnd']; subst.
  destruct Hin as [Heq|Hin].
  - inversion Heq; subst. rewrite String.eqb_refl. reflexivity.
  - destruct (String.eqb_spec k k0) as [->|_]; [|exact (IH Hnd' Hin)].
    exfalso. apply Hnotin. exact (in_map fst _ _ Hin).
Qed.

Lemma dict_get_rev {V} (d : Dict V) k :
  NoDup (map fst d) -> dict_get (rev d) k = dict_get d k.
Proof.
  intros Hnd.
  assert (Hnd' : NoDup (map fst (rev d))).
  { rewrite map_rev. apply (Permutation_NoDup (Permutation_rev _)). exact Hnd. }
  destruct (dict_get d k) as [v|] eqn:E.
  - apply dict_get_nodup_in; [exact Hnd'|]. apply in_rev. rewrite rev_involutive.
    exact (ExcProofs.dict_get_in _ _ _ E).
  - apply ExcProofs.dict_get_none_notin. apply ExcProofs.dict_get_none_notin in E.
    rewrite map_rev. intros H. apply E. apply in_rev. exact H.
Qed.

(** The chain built by [partial] over [reversed(mws)] runs the first
    middleware outermost. *)
Lemma compose_fold_right (mws : list MwDef) (h : Request -> Out) :
  compose mws h = fold_right (fun m acc => mw_run m acc) h mws.
Proof.
  unfold compose. rewrite <- (rev_involutive mws) at 2.
  rewrite fold_left_rev_right. reflexivity.
Qed.

Lemma mw_le_total a b : mw_le a b = false -> mw_le b a = true.
Proof. unfold mw_le. intros H. apply Z.leb_gt in H. apply Z.leb_le. lia. Qed.

Lemma ns_middlewares_sorted ns : Sorted (fun a b => mw_le a b = true) (ns_middlewares ns).
Proof. unfold ns_middlewares. apply (SortProofs.sort_by_sorted mw_le mw_le_total). Qed.

(** Middlewares whose after-logic appends their name to
    [response.meta["middlewares"]] leave the names in the reverse order of
    the chain. *)
Lemma tagging_chain (ms : list MwDef) (h : Request -> Out) (r : Request) resp log l0 :
  Forall (fun m => mw_run m = fun handler request => tag_response (mw_name m) (handler request)) ms ->
  h r = (Ok resp, log) -> tags_of resp = Some l0 ->
  exists resp', fold_right (fun m acc => mw_run m acc) h ms r = (Ok resp', log) /\
                tags_of resp' = Some (app l0 (map VStr (rev (map mw_name ms)))).
Proof.
  intros Hall Hh Ht. induction Hall as [|m ms Hm Hall IH]; simpl.
  - exists resp. rewrite app_nil_r. auto.
  - destruct IH as [resp1 [Heq Ht1]]. rewrite Hm. simpl. rewrite Heq. simpl. rewrite Ht1.
    eexists; split; [reflexivity|]. unfold tags_of. simpl. rewrite dict_get_set, String.eqb_refl.
    rewrite map_app, app_assoc. reflexivity.
Qed.

(** C10: the handler is called with [dict(request.params,
    **request.injections)] and with nothing else: an injected key always
    carries the injected value (replacing a validated param of the same
    name), other keys carry the params' values, and the wrapper's outcome
    is the handler's outcome at exactly that mapping. *)
Theorem injections_override_params (req : Request) (info : HandlerInfo) (f : HandlerFn)
    (Hinfo : rq_info req = Some info) (Hf : rq_handler req = Some f)
    (Hnd : NoDup (map fst (rq_injections req))) :
  let args := dict_update (rq_params req) (rq_injections req) in
  (forall k v, dict_get (rq_injections req) k = Some v -> dict_get args k = Some v) /\
  (forall k, dict_get (rq_injections req) k = None -> dict_get args k = dict_get (rq_params req) k) /\
  (forall result, f args = Ok result -> wrapper req = (Ok (response_of req result None), [])) /\
  (forall g, g args = f args -> wrapper (set_handler req g info) = wrapper req).
Proof.
  intros args. split; [|split; [|split]].
  - intros k v Hk. unfold args. rewrite dict_get_update, dict_get_rev by exact Hnd. rewrite Hk. reflexivity.
  - intros k Hk. unfold args. rewrite dict_get_update, dict_get_rev by exact Hnd. rewrite Hk. reflexivity.
  - intros result Hres. unfold wrapper. rewrite Hinfo, Hf. fold args. rewrite Hres. reflexivity.
  - intros g Hg. unfold wrapper. simpl. rewrite Hinfo, Hf. fold args. rewrite Hg. reflexivity.
Qed.

Lemma injections_override_params_witness :
  let req := set_handler (set_injections (sum_request []) [("y", VInt 10)]) sum_fn
               (plain_info true (RaisesTuple [])) in
  dict_get (dict_update (rq_params req) (rq_injections req)) "y" = Some (VInt 10) /\
  wrapper req = (Ok (response_of req (VInt 11) None), []).
Proof.
  intros req.
  destruct (injections_override_params req (plain_info true (RaisesTuple [])) sum_fn
              eq_refl eq_refl ltac:(repeat constructor; simpl; tauto)) as [H1 [_ [H3 _]]].
  split.
  - apply H1. reflexivity.
  - apply H3. reflexivity.
Defined.

(** C3 (amended): outcomes of the handler [wrapper] when the handler
    raises [e].  A cancellation is re-raised as is.  An exception that is
    an instance of the declared [raises] and of [BaseError] is re-raised
    with its data updated by [{method, version}].  Any other exception
    derived from [Exception] is logged and replaced by [RPCInternalError]
    whose data is [{method, version}].  An exception outside [Exception]
    ([SystemExit], [KeyboardInterrupt], [GeneratorExit]) propagates
    unchanged and is not logged. *)
Theorem handler_failure_masking (req : Request) (info : HandlerInfo) (f : HandlerFn) (e : PyExc)
    (Hinfo : rq_info req = Some info) (Hf : rq_handler req = Some f)
    (He : f (dict_update (rq_params req) (rq_injections req)) = Raise e) :
  let ctx := [("method", VStr (rq_method req)); ("version", meta_get (rq_meta req) "version")] in
  (e = ECancelled -> wrapper req = (Raise ECancelled, [])) /\
  (e <> ECancelled -> raises_match (hi_raises info) e = true -> is_instance e base_error = true ->
     exists c m d, e = ECoded c m d /\
       wrapper req = (Raise (ECoded c m (dict_update d ctx)), []) /\
       dict_get (dict_update d ctx) "method" = Some (VStr (rq_method req)) /\
       dict_get (dict_update d ctx) "version" = Some (meta_get (rq_meta req) "version")) /\
  (e <> ECancelled -> is_exception e = true ->
     raises_match (hi_raises info) e && is_instance e base_error = false ->
     wrapper req = (Raise (ECoded rpc_internal_error (Some "Internal server error") ctx), [e])) /\
  (is_exception e = false -> wrapper req = (Raise e, [])).
Proof.
  intros ctx.
  assert (Hw : wrapper req =
    match Raise e with
    | Ok result => (Ok (response_of req result None), [])
    | Raise ECancelled => (Raise ECancelled, [])
    | Raise e =>
        if is_exception e then
          if raises_match (hi_raises info) e && is_instance e base_error
          then (Raise (enrich e ctx), [])
          else (Raise (raise_new rpc_internal_error ctx), [e])
        else (Raise e, [])
    end).
  { unfold wrapper. rewrite Hinfo, Hf, He. reflexivity. }
  split; [|split; [|split]].
  - intros ->. exact Hw.
  - intros Hne Hr Hb. destruct e as [c m d| | |]; try discriminate.
    exists c, m, d. split; [reflexivity|]. rewrite Hw. unfold is_exception. cbv beta iota.
    rewrite Hr, Hb. split; [reflexivity|].
    rewrite !dict_get_update. simpl. split; reflexivity.
  - intros Hne Hx Hrb. rewrite Hw.
    destruct e as [c m d|mro t| |n]; try (exfalso; congruence); try discriminate;
      unfold is_exception; cbv beta iota; rewrite Hrb; reflexivity.
  - intros Hx. destruct e; try discriminate. exact Hw.
Qed.

Lemma handler_failure_masking_witness :
  let req := set_handler (sum_request [("version", VNone)]) (fun _ => Raise value_error)
               (plain_info true (RaisesTuple [])) in
  wrapper req =
    (Raise (ECoded rpc_internal_error (Some "Internal server error")
              [("method", VStr "foo.sum"); ("version", VNone)]), [value_error]).
Proof.
  intros req.
  apply (proj1 (proj2 (proj2 (handler_failure_masking req (plain_info true (RaisesTuple []))
                                (fun _ => Raise value_error) value_error eq_refl eq_refl eq_refl)))).
  - discriminate.
  - reflexivity.
  - reflexivity.
Defined.

(** C3 fails as stated: a handler that raises [KeyboardInterrupt] (a
    [BaseException] that is no [Exception]) is not replaced by an internal
    error; the wrapper lets it through unlogged. *)
Lemma handler_failure_masking_counterexample :
  let req := set_handler (sum_request []) (fun _ => Raise (EBaseOnly "KeyboardInterrupt"))
               (plain_info true (RaisesTuple [])) in
  wrapper req = (Raise (EBaseOnly "KeyboardInterrupt"), []) /\
  fst (wrapper req) <> Raise (raise_new rpc_internal_error [("method", VStr "foo.sum"); ("version", VNone)]).
Proof. split; [reflexivity | vm_compute; discriminate]. Qed.

(** C2: dispatch of a method found in the table with valid params.  The
    accumulated sequence is the incoming [request.middlewares], then the
    dispatcher's own middlewares, then those of each namespace on the
    method's path, each group sorted by ascending order; the handler chain
    runs the first element of that sequence outermost.  So middlewares
    whose after-logic tags [response.meta["middlewares"]] leave their tags
    in the reverse of the sequence: innermost scope first and, within a
    scope, highest order first. *)
Theorem middleware_composition_order (self : Namespace) (mws : list MwDef) (req : Request)
    (md : MethodDef) (params : Dict Value)
    (Hmd : dict_get (methods_table self) (rq_method req) = Some md)
    (Hval : sch_validate (hi_schema (hd_info (md_handler md))) (rq_params req) = inr params) :
  let req1 := set_params (set_handler req (hd_fn (md_handler md)) (hd_info (md_handler md))) params in
  let chain := accumulated self mws md in
  chain = app mws (app (ns_middlewares self) (List.concat (map ns_middlewares (md_namespaces md)))) /\
  Sorted (fun a b => mw_le a b = true) (ns_middlewares self) /\
  Forall (fun ns => Sorted (fun a b => mw_le a b = true) (ns_middlewares ns)) (md_namespaces md) /\
  disp_dispatch self mws req = fold_right (fun m acc => mw_run m acc) wrapper chain req1 /\
  (forall resp log l0,
     Forall (fun m => mw_run m = fun handler request => tag_response (mw_name m) (handler request)) chain ->
     wrapper req1 = (Ok resp, log) -> tags_of resp = Some l0 ->
     exists resp', disp_dispatch self mws req = (Ok resp', log) /\
       tags_of resp' = Some (app l0 (map VStr (rev (map mw_name chain))))).
Proof.
  intros req1 chain.
  assert (Hd : disp_dispatch self mws req = fold_right (fun m acc => mw_run m acc) wrapper chain req1).
  { unfold disp_dispatch. rewrite Hmd. simpl. rewrite Hval. rewrite compose_fold_right. reflexivity. }
  split; [reflexivity|]. split; [apply ns_middlewares_sorted|].
  split; [apply Forall_forall; intros ns _; apply ns_middlewares_sorted|].
  split; [exact Hd|].
  intros resp log l0 Hall Hw Ht. rewrite Hd. exact (tagging_chain chain wrapper req1 resp log l0 Hall Hw Ht).
Qed.


Lemma middleware_composition_order_witness :
  result_tags (disp_dispatch app_ns [] (sum_request [])) =
    Some [VStr "Foo.middleware_2"; VStr "Foo.middleware_1";
          VStr "App.middleware_2"; VStr "App.middleware_1"].
Proof.
  destruct (middleware_composition_order app_ns [] (sum_request []) sum_method
              [("x", VInt 1); ("y", VInt 2)] eq_refl eq_refl) as (_ & _ & _ & _ & H5).
  destruct (H5 (mkResponse (VInt 1) [] (VInt 3) None []) [] []) as [resp' [Heq Ht]].
  - repeat constructor.
  - reflexivity.
  - reflexivity.
  - unfold result_tags. rewrite Heq. simpl. rewrite Ht. reflexivity.
Defined.

End DispatchProofs.

(* ------------------------------------------------------------------------- *)
(** * Proofs: method discovery and the builtin listings                      *)
(* ------------------------------------------------------------------------- *)

Module ListingProofs.
Import Rpc ZDictProofs Examples Props.


Lemma add_version_oinv acc P v :
  OInv acc P -> (forall p, In p P -> ver_le p v = true) -> OInv (add_version acc v) (app P [v]).
Proof.
  intros [Hs Hk] Hle. unfold add_version, OInv. destruct (av_version v) as [M m] eqn:Ev.
  destruct (zget acc M) as [majors|] eqn:Eg.
  - rewrite zset_keys_present by congruence. split; [exact Hs|].
    intros M' HM'. destruct (Hk _ HM') as [p [Hp Hpm]].
    exists p. split; [apply in_or_app; left; exact Hp | exact Hpm].
  - rewrite zset_keys_absent by exact Eg. split.
    + apply strongly_sorted_snoc; [exact Hs|]. intros y Hy.
      destruct (Hk _ Hy) as [p [Hp Hpm]]. specialize (Hle _ Hp). unfold ver_le in Hle.
      rewrite Ev in Hle. destruct (av_version p) as [M1 m1]. simpl in Hpm. subst y.
      assert (M1 <> M).
      { intros ->. apply in_map_iff in Hy. destruct Hy as [[k a] [Hk' Hin]]. simpl in Hk'. subst k.
        exact (in_zget _ _ _ Hin Eg). }
      rewrite orb_true_iff, andb_true_iff, Z.ltb_lt, Z.eqb_eq, Z.leb_le in Hle. lia.
    + intros M' HM'. apply in_app_or in HM'. destruct HM' as [HM'|[<-|[]]].
      * destruct (Hk _ HM') as [p [Hp Hpm]].
        exists p. split; [apply in_or_app; left; exact Hp | exact Hpm].
      * exists v. split; [apply in_or_app; right; left; reflexivity | rewrite Ev; reflexivity].
Qed.

Lemma fold_add_version_oinv l acc P :
  OInv acc P -> StronglySorted (fun a b => ver_le a b = true) l ->
  (forall p x, In p P -> In x l -> ver_le p x = true) ->
  OInv (fold_left add_version l acc) (app P l).
Proof.
  revert acc P. induction l as [|x l IH]; intros acc P Hinv Hs Hpl; simpl.
  - rewrite app_nil_r. exact Hinv.
  - inversion Hs as [|? ? Hs' Hf]; subst. rewrite Forall_forall in Hf.
    replace (app P (x :: l)) with (app (app P [x]) l) by (rewrite <- app_assoc; reflexivity).
    apply IH; [| exact Hs' |].
    + apply add_version_oinv; [exact Hinv|]. intros p Hp. apply Hpl; [exact Hp | left; reflexivity].
    + intros p y Hp Hy. apply in_app_or in Hp. destruct Hp as [Hp|[<-|[]]].
      * apply Hpl; [exact Hp | right; exact Hy].
      * apply Hf; exact Hy.
Qed.

Lemma api_versions_majors_sorted deps : StronglySorted Z.lt (map fst (api_versions deps)).
Proof.
  assert (Hss : StronglySorted (fun a b => ver_le a b = true) (sort_by ver_le (registered deps))).
  { apply Sorted_StronglySorted; [intros a b c; apply ApiProofs.ver_le_trans|].
    apply SortProofs.sort_by_sorted. exact ApiProofs.ver_le_total. }
  unfold api_versions.
  assert (H : OInv (fold_left add_version (sort_by ver_le (registered deps)) [])
                   (app [] (sort_by ver_le (registered deps)))).
  { apply fold_add_version_oinv; [| exact Hss | intros p x []].
    split; [constructor | intros M []]. }
  exact (proj1 H).
Qed.

Lemma zget_sorted_in {V} (d : ZDict V) k a :
  StronglySorted Z.lt (map fst d) -> In (k, a) d -> zget d k = Some a.
Proof.
  induction d as [|[k0 a0] d IH]; simpl; [tauto|].
  intros Hs Hin. inversion Hs as [|? ? Hs' Hf]; subst. rewrite Forall_forall in Hf.
  destruct Hin as [Heq|Hin].
  - inversion Heq; subst. rewrite Z.eqb_refl. reflexivity.
  - destruct (Z.eqb_spec k k0) as [->|_]; [|exact (IH Hs' Hin)].
    specialize (Hf k0 (in_map fst _ _ Hin)). lia.
Qed.

Lemma strongly_sorted_app {A} (R : A -> A -> Prop) l1 l2 :
  StronglySorted R l1 -> StronglySorted R l2 -> (forall x y, In x l1 -> In y l2 -> R x y) ->
  StronglySorted R (app l1 l2).
Proof.
  induction l1 as [|x l1 IH]; simpl; intros H1 H2 H12; [exact H2|].
  inversion H1 as [|? ? H1' Hf]; subst. constructor.
  - apply IH; auto.
  - apply Forall_app. split; [exact Hf|]. apply Forall_forall. intros y Hy. apply H12; auto.
Qed.



Lemma list_versions_map vt : list_versions vt = map version_entry (versions_in_order vt).
Proof.
  unfold list_versions, versions_in_order.
  induction vt as [|[M majors] vt IH]; simpl; [reflexivity|].
  rewrite map_app, IH. f_equal.
  induction majors as [|[k a] majors IHm]; simpl; congruence.
Qed.

Lemma in_versions_in_order vt av :
  In av (versions_in_order vt) <-> exists M majors k, In (M, majors) vt /\ In (k, av) majors.
Proof.
  unfold versions_in_order. rewrite in_flat_map. split.
  - intros [[M majors] [Hin Hav]]. apply in_map_iff in Hav. destruct Hav as [[k a] [Ha Hk]].
    simpl in Ha. subst a. eauto.
  - intros (M & majors & k & Hin & Hk). exists (M, majors). split; [exact Hin|].
    apply in_map_iff. exists (k, av). auto.
Qed.

Lemma versions_in_order_sorted vt :
  StronglySorted Z.lt (map fst vt) ->
  (forall M majors, In (M, majors) vt ->
     StronglySorted Z.lt (map fst majors) /\
     forall k av, In (k, av) majors -> av_version av = (M, k)) ->
  StronglySorted (fun a b => version_lt (av_version a) (av_version b)) (versions_in_order vt).
Proof.
  induction vt as [|[M majors] vt IH]; intros Hs Hg; [constructor|].
  inversion Hs as [|? ? Hs' Hf]; subst. rewrite Forall_forall in Hf.
  destruct (Hg M majors (or_introl eq_refl)) as [Hms Hver].
  change (versions_in_order ((M, majors) :: vt)) with (app (map snd majors) (versions_in_order vt)).
  apply strongly_sorted_app.
  - clear IH Hg Hf Hs Hs'. induction majors as [|[k a] majors IHm]; simpl; [constructor|].
    inversion Hms as [|? ? Hms' Hfm]; subst. rewrite Forall_forall in Hfm. constructor.
    + apply IHm; [exact Hms'|]. intros k' av Hin. apply Hver. right; exact Hin.
    + apply Forall_forall. intros y Hy. apply in_map_iff in Hy. destruct Hy as [[k' a'] [Ha' Hin]].
      simpl in Ha'. subst y. rewrite (Hver k a (or_introl eq_refl)), (Hver k' a' (or_intror Hin)).
      unfold version_lt. simpl. specialize (Hfm k' (in_map fst _ _ Hin)). lia.
  - apply IH; [exact Hs'|]. intros M' majors' Hin. apply Hg. right; exact Hin.
  - intros x y Hx Hy. apply in_map_iff in Hx. destruct Hx as [[k a] [Ha Hk]]. simpl in Ha. subst x.
    apply in_versions_in_order in Hy. destruct Hy as (M' & majors' & k' & Hin' & Hk').
    destruct (Hg M' majors' (or_intror Hin')) as [_ Hver'].
    rewrite (Hver k a Hk), (Hver' k' y Hk'). unfold version_lt. simpl.
    specialize (Hf M' (in_map fst _ _ Hin')). lia.
Qed.

Lemma str_leb_total a b : str_leb a b = false -> str_leb b a = true.
Proof. unfold str_leb. intros H. destruct (String.leb_total a b); congruence. Qed.

Lemma lookup_add_version acc v M m :
  match zget (add_version acc v) M with Some majors => zget majors m | None => None end =
  if Z.eqb (fst (av_version v)) M && Z.eqb (snd (av_version v)) m then Some v
  else match zget acc M with Some majors => zget majors m | None => None end.
Proof.
  unfold add_version. destruct (av_version v) as [M0 m0]. simpl.
  rewrite ZDictProofs.zget_zset. rewrite (Z.eqb_sym M0 M).
  destruct (Z.eqb_spec M M0) as [->|Hne]; simpl.
  - rewrite ZDictProofs.zget_zset, (Z.eqb_sym m0 m).
    destruct (Z.eqb m m0); [reflexivity|]. destruct (zget acc M0); reflexivity.
  - reflexivity.
Qed.

Lemma lookup_fold_add_version l acc M m :
  match zget (fold_left add_version l acc) M with Some majors => zget majors m | None => None end =
  match rev (filter (fun v => Z.eqb (fst (av_version v)) M && Z.eqb (snd (av_version v)) m) l) with
  | v :: _ => Some v
  | [] => match zget acc M with Some majors => zget majors m | None => None end
  end.
Proof.
  revert acc. induction l as [|x l IH]; intros acc; simpl; [reflexivity|].
  rewrite IH, lookup_add_version.
  destruct (Z.eqb (fst (av_version x)) M && Z.eqb (snd (av_version x)) m) eqn:Ex; simpl;
    destruct (rev (filter _ l)) as [|w ws]; reflexivity.
Qed.

(** The [_versions] table maps (major, minor) to the last version with that
    pair in the iteration order of [depends_on]. *)
Lemma api_versions_lookup_last deps M m :
  match zget (api_versions deps) M with Some majors => zget majors m | None => None end =
  match rev (filter (fun v => Z.eqb (fst (av_version v)) M && Z.eqb (snd (av_version v)) m)
               (registered deps)) with
  | v :: _ => Some v
  | [] => None
  end.
Proof.
  unfold api_versions. rewrite lookup_fold_add_version. simpl.
  set (z := mkAPIVersion (M, m) false "" (mkNs true true [])).
  assert (Hz : forall v, (Z.eqb (fst (av_version v)) M && Z.eqb (snd (av_version v)) m) =
                         ver_le v z && ver_le z v).
  { intros v. unfold ver_le, z. simpl. destruct (av_version v) as [a b]. simpl.
    destruct (Z.eqb_spec a M), (Z.eqb_spec b m), (Z.ltb_spec a M), (Z.leb_spec b m),
      (Z.ltb_spec M a), (Z.eqb_spec M a), (Z.leb_spec m b); simpl; try lia; reflexivity. }
  rewrite !(filter_ext _ _ Hz).
  rewrite (StableSortProofs.sort_by_filter ver_le ApiProofs.ver_le_total ApiProofs.ver_le_trans z).
  reflexivity.
Qed.


Lemma rev_filter_last {A} (f : A -> bool) l a r :
  rev (filter f l) = a :: r ->
  exists pre post, l = app pre (a :: post) /\ f a = true /\ Forall (fun w => f w = false) post.
Proof.
  revert a r. induction l as [|x l IH] using rev_ind; intros a r H; [discriminate|].
  rewrite filter_app, rev_app_distr in H. simpl in H. destruct (f x) eqn:Ex.
  - simpl in H. injection H as <- _. exists l, []. split; [reflexivity|]. split; [exact Ex | constructor].
  - simpl in H. destruct (IH a r H) as [pre [post [-> [Ha Hp]]]].
    exists pre, (app post [x]). split; [rewrite <- app_assoc; reflexivity|]. split; [exact Ha|].
    apply Forall_app. split; [exact Hp | constructor; [exact Ex | constructor]].
Qed.

(** C9 (amended): [list_methods] is sorted by name, each entry's [name] is
    the method name and its [raises] the list of the declared classes' code
    strings.  [list_versions] lists one entry per registered (major, minor)
    pair in ascending (major, minor) order, which need not be registration
    order, each with its [deprecated] flag.  Of several versions with one
    pair only one is listed: the last of them in the iteration order of
    [depends_on] (no later [APIVersion] there has its pair). *)
Theorem builtin_listings (table : Dict MethodDef) (deps : list Component) :
  Sorted (fun a b => str_leb (name_key a) (name_key b) = true) (list_methods table) /\
  Permutation (list_methods table) (map (fun kv => method_info (snd kv)) table) /\
  (forall md, dict_get (method_info md) "name" = Some (VStr (md_name md)) /\
     dict_get (method_info md) "raises" =
       Some (VList (map VStr (raises_codes (hi_raises (hd_info (md_handler md))))))) /\
  let avs := versions_in_order (api_versions deps) in
  list_versions (api_versions deps) = map version_entry avs /\
  (forall av, dict_get (version_entry av) "deprecated" = Some (VBool (av_deprecated av))) /\
  StronglySorted (fun a b => version_lt (av_version a) (av_version b)) avs /\
  (forall av, In av avs -> In av (registered deps)) /\
  (forall av, In av avs -> exists pre post, registered deps = app pre (av :: post) /\
     Forall (fun w => av_version w <> av_version av) post) /\
  (forall v, In v (registered deps) -> exists av, In av avs /\ av_version av = av_version v).
Proof.
  destruct (ApiProofs.api_versions_spec deps) as [H1 H2].
  pose proof (api_versions_majors_sorted deps) as Hs.
  split; [apply (SortProofs.sort_by_sorted _ (fun a b => str_leb_total (name_key a) (name_key b)))|].
  split; [apply SortProofs.sort_by_perm|].
  split.
  { intros md. unfold method_info.
    rewrite !DispatchProofs.dict_get_set, !DispatchProofs.dict_get_update. simpl. split; reflexivity. }
  intros avs. split; [apply list_versions_map|]. split; [reflexivity|].
  split.
  - apply versions_in_order_sorted; [exact Hs|]. intros M majors Hin.
    destruct (H1 M majors (zget_sorted_in _ _ _ Hs Hin)) as [Ha Hb]. split; [exact Hb|].
    intros k av Hk. exact (proj2 (Ha k av Hk)).
  - split; [|split].
    + intros av Hav. apply in_versions_in_order in Hav. destruct Hav as (M & majors & k & Hin & Hk).
      exact (proj1 (proj1 (H1 M majors (zget_sorted_in _ _ _ Hs Hin)) k av Hk)).
    + intros av Hav. apply in_versions_in_order in Hav. destruct Hav as (M & majors & k & Hin & Hk).
      pose proof (zget_sorted_in _ _ _ Hs Hin) as Hg.
      destruct (H1 M majors Hg) as [Ha Hb].
      pose proof (zget_sorted_in _ _ _ Hb Hk) as Hk'.
      destruct (Ha k av Hk) as [_ Hver].
      pose proof (api_versions_lookup_last deps M k) as Hl. rewrite Hg, Hk' in Hl.
      destruct (rev (filter _ (registered deps))) as [|v r] eqn:E; [discriminate|].
      injection Hl as <-. apply rev_filter_last in E as [pre [post [Heq [_ Hp]]]].
      exists pre, post. split; [exact Heq|].
      rewrite Forall_forall in Hp |- *. intros w Hw Hwv. specialize (Hp w Hw).
      rewrite Hwv, Hver in Hp. simpl in Hp. rewrite !Z.eqb_refl in Hp. discriminate.
    + intros v Hv. destruct (H2 v Hv) as [majors [Hg Hn]].
      destruct (zget majors (snd (av_version v))) as [a|] eqn:Ea; [|congruence].
      apply zget_in in Ea. destruct (proj1 (H1 _ _ Hg) _ _ Ea) as [_ Hver].
      exists a. split.
      * apply in_versions_in_order. exists (fst (av_version v)), majors, (snd (av_version v)).
        split; [exact (zget_in _ _ _ Hg) | exact Ea].
      * rewrite Hver. destruct (av_version v); reflexivity.
Qed.

Lemma builtin_listings_witness :
  Sorted (fun a b => str_leb (name_key a) (name_key b) = true) (list_methods (methods_table app_ns)) /\
  map (fun e => dict_get e "name") (list_methods (methods_table app_ns)) =
    [Some (VStr "foo.sum"); Some (VStr "nested.get_nothing")] /\
  list_versions (api_versions app_deps) = map version_entry [v10; v21] /\
  In v10b (versions_in_order (api_versions duplicate_deps)) /\
  exists pre post, registered duplicate_deps = app pre (v10b :: post) /\
    Forall (fun w => av_version w <> av_version v10b) post.
Proof.
  pose proof (builtin_listings (methods_table app_ns) app_deps) as H. cbv zeta in H.
  destruct H as [Hs [_ [_ [Hl _]]]].
  split; [exact Hs|]. split; [vm_compute; reflexivity|].
  split; [rewrite Hl; vm_compute; reflexivity|].
  assert (Hin : In v10b (versions_in_order (api_versions duplicate_deps)))
    by (vm_compute; left; reflexivity).
  split; [exact Hin|].
  pose proof (builtin_listings (methods_table app_ns) duplicate_deps) as H. cbv zeta in H.
  destruct H as [_ [_ [_ [_ [_ [_ [_ [Hlast _]]]]]]]].
  exact (Hlast v10b Hin).
Defined.

(** C9 fails as stated: with the versions registered as [V21] then [V10],
    [list_versions] lists (1, 0) first; and of two classes registered for
    (1, 0) only one is listed. *)
Lemma builtin_listings_counterexample :
  map av_version (registered swapped_deps) = [(2, 1); (1, 0)]%Z /\
  map (fun e => dict_get e "version") (list_versions (api_versions swapped_deps)) =
    [Some (version_value (1, 0)%Z); Some (version_value (2, 1)%Z)] /\
  List.length (registered duplicate_deps) = 2%nat /\
  list_versions (api_versions duplicate_deps) = [version_entry v10b].
Proof. split; [|split; [|split]]; vm_compute; reflexivity. Qed.

(** C8: the routing table of [App] (tests/rpc/test_api.py) where [foo]
    holds the namespace [nested] with the handler [get_nothing]:
    [iter_methods] recurses into [nested] with the prefix [nested.] in
    place of [foo.nested.], so the method is registered as
    [nested.get_nothing] and [foo.nested.get_nothing] is undefined. *)
Lemma iter_methods_nested_prefix_counterexample :
  map md_name (iter_methods app_ns [] "") = ["nested.get_nothing"; "foo.sum"] /\
  dict_get (methods_table app_ns) "foo.nested.get_nothing" = None /\
  fst (api_dispatch app_ns (api_versions app_deps) [] (bare_request 1 "foo.nested.get_nothing")) =
    Raise (raise_new rpc_undefined_method
             [("method", VStr "foo.nested.get_nothing"); ("version", VNone)]).
Proof. split; [|split]; vm_compute; reflexivity. Qed.

End ListingProofs.

(* ------------------------------------------------------------------------- *)
(** * Proofs: the wire layer                                                 *)
(* ------------------------------------------------------------------------- *)

Module TransportProofs.
Import Rpc Transport Examples Props.

(** [Request.load] fails only with [RPCInvalidRequest]. *)
Lemma load_request_invalid raw h e :
  load_request raw h = Raise e -> is_instance e rpc_invalid_request = true.
Proof.
  intros H. unfold load_request in H.
  repeat (match type of H with context [match ?x with _ => _ end] => destruct x end);
    try discriminate; injection H as <-; reflexivity.
Qed.


Lemma handle_raw_outcome d h raw
    (Hs : forall req, load_request raw h = Ok req ->
            fst (d req) <> Raise ECancelled /\ forall n, fst (d req) <> Raise (EBaseOnly n)) :
  exists r, fst (handle_raw d h raw) = Ok r /\ raw_outcome d h raw r.
Proof.
  unfold handle_raw, raw_outcome. destruct (load_request raw h) as [req|e] eqn:El.
  - destruct (Hs req eq_refl) as [Hc Hb]. destruct (d req) as [o log] eqn:Ed. simpl in Hc, Hb.
    destruct o as [resp|e].
    + exists resp. split; [reflexivity|]. split; [intros e H; discriminate|].
      intros req' H. injection H as <-. rewrite Ed. simpl.
      split; [intros resp' H; injection H as <-; reflexivity|].
      split; intros e H; discriminate.
    + destruct (is_instance e base_error) eqn:Eb.
      * exists (response_of req VNone (Some e)). split; [reflexivity|].
        split; [intros e' H; discriminate|].
        intros req' H. injection H as <-. rewrite Ed. simpl.
        split; [intros resp' H; discriminate|].
        split; intros e' H; injection H as <-; [reflexivity | congruence].
      * destruct e as [c m dd|mro t| |n];
          [ | | exfalso; apply Hc; reflexivity | exfalso; apply (Hb n); reflexivity];
          (exists (response_of req VNone (Some (raise_new rpc_internal_error [])));
           split; [reflexivity|];
           split; [intros e' H; discriminate|];
           intros req' H; injection H as <-; rewrite Ed; simpl;
           split; [intros resp' H; discriminate|];
           split; intros e' H; injection H as <-; [congruence | reflexivity]).
  - exists (mkResponse (recovered_id raw) [] VNone (Some e) []).
    rewrite (load_request_invalid _ _ _ El). split; [reflexivity|].
    split; [intros e' H; injection H as <-; reflexivity | intros req H; discriminate].
Qed.

Lemma handle_raw_raise d h raw e :
  fst (handle_raw d h raw) = Raise e -> e = ECancelled \/ exists n, e = EBaseOnly n.
Proof.
  unfold handle_raw. destruct (load_request raw h) as [req|e0] eqn:El.
  - destruct (d req) as [o log]. destruct o as [resp|e1]; [discriminate|].
    destruct (is_instance e1 base_error); [discriminate|].
    destruct e1 as [c m dd|mro t| |n]; simpl; intros H; try discriminate;
      injection H as <-; [left | right; exists n]; reflexivity.
  - rewrite (load_request_invalid _ _ _ El). discriminate.
Qed.

Lemma handle_raw_aborts d h raw req e :
  load_request raw h = Ok req -> fst (d req) = Raise e ->
  (e = ECancelled \/ exists n, e = EBaseOnly n) ->
  fst (handle_raw d h raw) = Raise e.
Proof.
  intros El Hd He. unfold handle_raw. rewrite El.
  destruct (d req) as [o log]. simpl in Hd. subst o.
  destruct He as [->|[n ->]]; reflexivity.
Qed.

Lemma gather_raise (outs : list (PyResult Response * list PyExc)) o e :
  In o outs -> fst o = Raise e ->
  exists e', In (Raise e') (map fst outs) /\ fst (gather outs) = Raise e'.
Proof.
  induction outs as [|[r log] outs IH]; intros Hin Ho; [destruct Hin|].
  simpl. destruct (gather outs) as [rs logs] eqn:Eg.
  destruct r as [x|e1].
  - destruct Hin as [<-|Hin]; [discriminate|].
    destruct (IH Hin Ho) as [e' [Hi He']]. simpl in He'. subst rs.
    exists e'. split; [right; exact Hi | reflexivity].
  - exists e1. split; [left; reflexivity | reflexivity].
Qed.

(** C4 (amended): in a batch none of whose elements' dispatch ends in a
    cancellation or in an exception outside [Exception], [gather] yields one
    response per element, the i-th for the i-th element: a request that
    fails to load is answered with its error and the payload's [id] when
    that is an int (else null); a dispatch that returns is answered with its
    response; one that raises a [BaseError] with that error; one that
    raises any other exception with [RPCInternalError].  The batch output is
    the list of these responses when it encodes; when encoding fails with
    [ValueError] or [TypeError] the whole batch is replaced by one
    internal-error response object.  In any batch, an element whose dispatch
    ends in a cancellation or in an exception outside [Exception] aborts the
    whole gather: [handle_json] produces no response and raises such an
    exception. *)
Theorem batch_isolation (d : Request -> Out) (headers : Dict Value) (items : list Value) :
  let fallback := mkResponse VNone [] VNone (Some (raise_new rpc_internal_error [])) [] in
  (Forall (fun raw => forall req, load_request raw headers = Ok req ->
             fst (d req) <> Raise ECancelled /\ forall n, fst (d req) <> Raise (EBaseOnly n)) items ->
   exists rs, fst (gather (map (handle_raw d headers) items)) = Ok rs /\
     Forall2 (raw_outcome d headers) items rs /\
     (forall j, to_json (wire_value (WBatch rs)) = Ok j ->
        fst (handle_json d headers (Ok (VList items))) = Ok j) /\
     (forall e, to_json (wire_value (WBatch rs)) = Raise e -> is_value_or_type_error e = true ->
        exists kvs, fst (handle_json d headers (Ok (VList items))) = Ok (JObj kvs) /\
          to_json (response_value fallback) = Ok (JObj kvs))) /\
  (forall raw req e,
     In raw items -> load_request raw headers = Ok req -> fst (d req) = Raise e ->
     (e = ECancelled \/ exists n, e = EBaseOnly n) ->
     exists e', (e' = ECancelled \/ exists n, e' = EBaseOnly n) /\
       fst (gather (map (handle_raw d headers) items)) = Raise e' /\
       fst (handle_json d headers (Ok (VList items))) = Raise e').
Proof.
  intros fallback. split.
  - intros Hsafe.
    assert (H : exists rs, fst (gather (map (handle_raw d headers) items)) = Ok rs /\
                  Forall2 (raw_outcome d headers) items rs).
    { induction Hsafe as [|raw items Hraw Hrest IH]; simpl.
      - exists []. split; [reflexivity | constructor].
      - destruct IH as [rs [Hg Hf]]. destruct (handle_raw_outcome d headers raw Hraw) as [r [Hr Ho]].
        destruct (handle_raw d headers raw) as [r0 log0]. simpl in Hr. subst r0.
        destruct (gather (map (handle_raw d headers) items)) as [rr ll]. simpl in Hg. subst rr.
        exists (r :: rs). split; [reflexivity | constructor; assumption]. }
    destruct H as [rs [Hg Hf]]. exists rs. split; [exact Hg|]. split; [exact Hf|].
    unfold handle_json.
    destruct (gather (map (handle_raw d headers) items)) as [rr ll]. simpl in Hg. subst rr.
    cbv beta iota. split.
    + intros j Hj. rewrite Hj. reflexivity.
    + intros e Hj He. rewrite Hj, He. vm_compute. eexists. split; reflexivity.
  - intros raw req e Hin El Hd He.
    destruct (gather_raise (map (handle_raw d headers) items) (handle_raw d headers raw) e)
      as [e' [Hi Hg]].
    + apply in_map. exact Hin.
    + exact (handle_raw_aborts d headers raw req e El Hd He).
    + exists e'. split; [|split; [exact Hg|]].
      * rewrite map_map in Hi. apply in_map_iff in Hi as [raw' [Hr _]].
        exact (handle_raw_raise d headers raw' e' Hr).
      * unfold handle_json. destruct (gather (map (handle_raw d headers) items)) as [rr ll].
        simpl in Hg. subst rr. reflexivity.
Qed.

Lemma batch_isolation_witness :
  (exists rs,
    fst (gather (map (handle_raw wire_dispatch [])
                   [raw_item 1 "undefined" []; raw_item 2 "foo.sum" [("x", VInt 1); ("y", VInt 2)]])) = Ok rs /\
    map resp_result rs = [VNone; VInt 3] /\
    map (fun r => match resp_error r with Some e => is_instance e rpc_undefined_method | None => false end) rs
      = [true; false]) /\
  (exists e', (e' = ECancelled \/ exists n, e' = EBaseOnly n) /\
     fst (handle_json (fun req => if String.eqb (rq_method req) "foo.sum"
                                  then (Raise ECancelled, []) else wire_dispatch req) []
            (Ok (VList [raw_item 1 "undefined" []; raw_item 2 "foo.sum" [("x", VInt 1); ("y", VInt 2)]])))
     = Raise e').
Proof.
  split.
  - destruct (proj1 (batch_isolation wire_dispatch []
                [raw_item 1 "undefined" []; raw_item 2 "foo.sum" [("x", VInt 1); ("y", VInt 2)]]))
      as [rs [Hg _]].
    + assert (Hok : forall raw, (forall req, load_request raw [] = Ok req ->
                     match fst (wire_dispatch req) with Raise ECancelled | Raise (EBaseOnly _) => false
                                                        | _ => true end = true) ->
                   forall req, load_request raw [] = Ok req ->
                     fst (wire_dispatch req) <> Raise ECancelled /\
                     forall n, fst (wire_dispatch req) <> Raise (EBaseOnly n)).
      { intros raw Hr req Hl. specialize (Hr req Hl).
        split; [|intros n]; intros He; rewrite He in Hr; discriminate. }
      apply Forall_cons; [|apply Forall_cons; [|apply Forall_nil]]; apply Hok;
        intros req Hl; vm_compute in Hl; injection Hl as <-; vm_compute; reflexivity.
    + exists rs. split; [exact Hg|]. vm_compute in Hg. injection Hg as <-. split; reflexivity.
  - destruct (proj2 (batch_isolation (fun req => if String.eqb (rq_method req) "foo.sum"
                                                 then (Raise ECancelled, []) else wire_dispatch req) []
                [raw_item 1 "undefined" []; raw_item 2 "foo.sum" [("x", VInt 1); ("y", VInt 2)]])
                (raw_item 2 "foo.sum" [("x", VInt 1); ("y", VInt 2)])
                (new_request (VInt 2) "foo.sum" [] [("x", VInt 1); ("y", VInt 2)]) ECancelled)
      as [e' [He' [_ Hj]]].
    + right. left. reflexivity.
    + vm_compute. reflexivity.
    + reflexivity.
    + left. reflexivity.
    + exists e'. split; [exact He' | exact Hj].
Defined.

(** C4 fails as stated: in a batch of [bad_type] (whose result the codec
    cannot write) and [foo.sum], the sibling [foo.sum] answers 3 on its
    own, yet the exchange answers a single non-batch internal-error object
    and no response for [foo.sum]. *)
Lemma batch_isolation_counterexample :
  (exists r, fst (handle_raw wire_dispatch [] (raw_item 2 "foo.sum" [("x", VInt 1); ("y", VInt 2)])) = Ok r /\
             resp_result r = VInt 3) /\
  (exists kvs,
     fst (handle_json wire_dispatch []
            (Ok (VList [raw_item 1 "bad_type" []; raw_item 2 "foo.sum" [("x", VInt 1); ("y", VInt 2)]])))
       = Ok (JObj kvs) /\
     dict_get kvs "id" = Some JNull /\ dict_get kvs "result" = Some JNull).
Proof.
  split.
  - vm_compute. eexists. split; reflexivity.
  - vm_compute. eexists. split; [reflexivity | split; reflexivity].
Qed.

(** C7 (amended): when encoding the output fails with [ValueError] or
    [TypeError], the failure is logged and the whole output -- a single
    response or a batch -- is replaced by one internal-error response object
    (which encodes); any other exception raised while encoding propagates
    out of [handle_json] and no response is produced. *)
Theorem encoding_failure_fallback (d : Request -> Out) (headers : Dict Value) :
  let fallback := mkResponse VNone [] VNone (Some (raise_new rpc_internal_error [])) [] in
  (exists kvs, to_json (response_value fallback) = Ok (JObj kvs)) /\
  (forall items rs log e,
     gather (map (handle_raw d headers) items) = (Ok rs, log) ->
     to_json (wire_value (WBatch rs)) = Raise e ->
     (is_value_or_type_error e = true ->
        handle_json d headers (Ok (VList items)) = (to_json (response_value fallback), app log [e])) /\
     (is_value_or_type_error e = false ->
        handle_json d headers (Ok (VList items)) = (Raise e, log))) /\
  (forall raw resp log e,
     (forall items, raw <> VList items) ->
     handle_raw d headers raw = (Ok resp, log) ->
     to_json (wire_value (WSingle resp)) = Raise e ->
     (is_value_or_type_error e = true ->
        handle_json d headers (Ok raw) = (to_json (response_value fallback), app log [e])) /\
     (is_value_or_type_error e = false ->
        handle_json d headers (Ok raw) = (Raise e, log))).
Proof.
  intros fallback. split; [|split].
  - vm_compute. eexists. reflexivity.
  - intros items rs log e Hg Hj. unfold handle_json. rewrite Hg. cbv beta iota. rewrite Hj.
    split; intros He; rewrite He; reflexivity.
  - intros raw resp log e Hnl Hh Hj. unfold handle_json.
    destruct raw; try (exfalso; eapply Hnl; reflexivity);
      rewrite Hh; cbv beta iota; rewrite Hj; split; intros He; rewrite He; reflexivity.
Qed.

Lemma encoding_failure_fallback_witness :
  handle_json wire_dispatch [] (Ok (raw_item 1 "bad_type" [])) =
    (to_json (response_value (mkResponse VNone [] VNone (Some (raise_new rpc_internal_error [])) [])),
     [EPlain ["TypeError"; "Exception"] "is not JSON-serializable"]).
Proof.
  destruct (proj2 (proj2 (encoding_failure_fallback wire_dispatch []))
              (raw_item 1 "bad_type" []) (mkResponse (VInt 1) [] (VOpaque 0) None []) []
              (EPlain ["TypeError"; "Exception"] "is not JSON-serializable")) as [H _].
  - intros items H. discriminate.
  - vm_compute. reflexivity.
  - vm_compute. reflexivity.
  - exact (H eq_refl).
Defined.

(** C7 fails as stated: a result whose [dump()] raises [KeyError] makes
    encoding fail, and [handle_json] raises that [KeyError] instead of
    answering an internal-error response. *)
Lemma encoding_failure_fallback_counterexample :
  handle_json wire_dispatch [] (Ok (raw_item 1 "bad_key" [])) = (Raise key_error, []).
Proof. vm_compute. reflexivity. Qed.

End TransportProofs.

(* ------------------------------------------------------------------------- *)
(** * Proofs: setup, listing, exceptions and the HTTP entry point             *)
(* ------------------------------------------------------------------------- *)

Module ExtraProofs.
Import Rpc Transport Specs Examples Catalog Http.

Lemma sorted_mono {A} (R R' : A -> A -> Prop) l :
  (forall a b, R a b -> R' a b) -> Sorted R l -> Sorted R' l.
Proof.
  intros H Hs. induction Hs as [|a l Hs IH Hd]; constructor; [exact IH|].
  destruct Hd; constructor. apply H. assumption.
Qed.

Lemma mw_le_trans a b c : mw_le a b = true -> mw_le b c = true -> mw_le a c = true.
Proof. unfold mw_le. rewrite !Z.leb_le. lia. Qed.

Lemma mw_le_total' a b : mw_le a b = false -> mw_le b a = true.
Proof. unfold mw_le. intros H. apply Z.leb_gt in H. apply Z.leb_le. lia. Qed.

(** [Namespace.on_setup]: the middleware list is a permutation of the public
    middleware attributes, sorted by order, and the sort is stable: the
    middlewares of one order keep their attribute order. *)
Theorem middlewares_sorted_stable ns o :
  let found := flat_map (fun '(name, a) =>
                 if public name then match a with AFunc _ (Some m) => [m] | _ => [] end
                 else []) (ns_attrs ns) in
  Permutation (ns_middlewares ns) found /\
  Sorted (fun a b => (mw_order a <= mw_order b)%Z) (ns_middlewares ns) /\
  filter (fun m => Z.eqb (mw_order m) o) (ns_middlewares ns) =
  filter (fun m => Z.eqb (mw_order m) o) found.
Proof.
  intros found. split; [apply SortProofs.sort_by_perm|]. split.
  - eapply sorted_mono; [|apply (SortProofs.sort_by_sorted mw_le mw_le_total')].
    intros a b. unfold mw_le. rewrite Z.leb_le. tauto.
  - set (z := mkMw "" o (fun h => h)).
    assert (Hz : forall m, Z.eqb (mw_order m) o = mw_le m z && mw_le z m).
    { intros m. unfold mw_le, z. simpl. destruct (Z.eqb_spec (mw_order m) o), (Z.leb_spec (mw_order m) o),
        (Z.leb_spec o (mw_order m)); simpl; lia. }
    rewrite !(filter_ext _ _ Hz).
    exact (StableSortProofs.sort_by_filter mw_le mw_le_total' mw_le_trans z found).
Qed.

Lemma dict_get_fold_set (l : list MethodDef) d0 n :
  dict_get (fold_left (fun d md => dict_set d (md_name md) md) l d0) n =
  match rev (filter (fun md => String.eqb (md_name md) n) l) with
  | md :: _ => Some md
  | [] => dict_get d0 n
  end.
Proof.
  revert d0. induction l as [|x l IH]; intros d0; simpl; [reflexivity|].
  rewrite IH, DispatchProofs.dict_get_set, (String.eqb_sym n (md_name x)).
  destruct (String.eqb (md_name x) n); simpl; destruct (rev (filter _ l)); reflexivity.
Qed.

(** [Dispatcher.on_setup]: the routing table maps a name to the last method
    of that name discovered by [iter_methods], and to nothing when none is. *)
Theorem methods_table_last_discovered ns n :
  dict_get (methods_table ns) n =
  match rev (filter (fun md => String.eqb (md_name md) n) (iter_methods ns [] "")) with
  | md :: _ => Some md
  | [] => None
  end.
Proof. unfold methods_table. rewrite dict_get_fold_set. reflexivity. Qed.

Lemma namespace_ind (P : Namespace -> Prop)
  (H : forall e dsp attrs,
         Forall (fun na => match snd na with ANamespace c => P c | _ => True end) attrs ->
         P (mkNs e dsp attrs)) :
  forall ns, P ns.
Proof.
  fix IH 1. intros [e dsp attrs]. apply H.
  induction attrs as [|[n a] attrs IHl]; constructor; [|exact IHl].
  destruct a as [h m|c|]; simpl; [exact I | apply IH | exact I].
Qed.

(** [Namespace.iter_methods]: every discovered method's namespace path is the
    given path extended by enabled namespaces that are not dispatchers. *)
Theorem iter_methods_namespaces ns nss prefix md :
  In md (iter_methods ns nss prefix) ->
  exists path, md_namespaces md = app nss path /\
    Forall (fun c => ns_enabled c = true /\ ns_is_dispatcher c = false) path.
Proof.
  revert nss prefix md. induction ns as [e dsp attrs Hch] using namespace_ind.
  intros nss prefix md Hin. simpl in Hin.
  induction attrs as [|[n a] attrs IHl]; [contradiction|].
  inversion Hch as [|? ? Hc Hrest]; subst.
  apply in_app_or in Hin. destruct Hin as [Hin|Hin]; [|exact (IHl Hrest Hin)].
  destruct (public n); [|contradiction].
  destruct a as [h m|c|]; simpl in Hc.
  - destruct h as [hd|]; [|contradiction]. destruct Hin as [<-|[]].
    exists []. rewrite app_nil_r. split; [reflexivity | constructor].
  - destruct (ns_enabled c && negb (ns_is_dispatcher c)) eqn:Ec; [|contradiction].
    destruct (Hc _ _ _ Hin) as [path [Heq Hf]].
    exists (c :: path). rewrite Heq, <- app_assoc. split; [reflexivity|].
    apply andb_true_iff in Ec as [E1 E2]. apply negb_true_iff in E2.
    constructor; [split; assumption | exact Hf].
  - contradiction.
Qed.

Lemma iter_methods_app e dsp l1 l2 nss prefix :
  iter_methods (mkNs e dsp (app l1 l2)) nss prefix =
  app (iter_methods (mkNs e dsp l1) nss prefix) (iter_methods (mkNs e dsp l2) nss prefix).
Proof.
  induction l1 as [|[n a] l1 IH]; [reflexivity|].
  simpl in IH |- *. rewrite IH, app_assoc. reflexivity.
Qed.

(** [Namespace.iter_methods]: a private attribute, a function that is not a
    handler, any other attribute, or a disabled or dispatcher namespace adds
    no method wherever it stands among the attributes. *)
Theorem iter_methods_skips e dsp l1 l2 n a nss prefix :
  (public n = false \/ (exists m, a = AFunc None m) \/ a = AOther \/
   exists c, a = ANamespace c /\ (ns_enabled c = false \/ ns_is_dispatcher c = true)) ->
  iter_methods (mkNs e dsp (app l1 ((n, a) :: l2))) nss prefix =
  iter_methods (mkNs e dsp (app l1 l2)) nss prefix.
Proof.
  intros H. rewrite !iter_methods_app. f_equal. simpl.
  destruct H as [Hp|[[m ->]|[->|[c [-> Hc]]]]].
  - rewrite Hp. reflexivity.
  - destruct (public n); reflexivity.
  - destruct (public n); reflexivity.
  - destruct (public n); [|reflexivity].
    destruct Hc as [Hc|Hc]; rewrite Hc; [reflexivity|].
    rewrite andb_false_r. reflexivity.
Qed.

(** [APIVersion.set_version_info]: an error passes through; a response keeps
    its id, result and error, gets meta version set by setdefault (other meta
    keys unchanged), and a deprecated version appends one deprecation warning
    with the class message. *)
Theorem set_version_info_outcome ver dep handler req :
  (forall e log, handler req = (Raise e, log) ->
     mw_run (set_version_info ver dep) handler req = (Raise e, log)) /\
  (forall resp log, handler req = (Ok resp, log) ->
     exists resp', mw_run (set_version_info ver dep) handler req = (Ok resp', log) /\
       resp_id resp' = resp_id resp /\ resp_result resp' = resp_result resp /\
       resp_error resp' = resp_error resp /\
       dict_get (resp_meta resp') "version" =
         Some (match dict_get (resp_meta resp) "version" with
               | Some v => v | None => version_value ver end) /\
       (forall k, k <> "version" -> dict_get (resp_meta resp') k = dict_get (resp_meta resp) k) /\
       resp_warnings resp' =
         app (resp_warnings resp)
           (if dep then [ECoded rpc_deprecated_version (Some "API version is deprecated") []]
            else [])).
Proof.
  split.
  - intros e log H. simpl. rewrite H. reflexivity.
  - intros resp log H. simpl. rewrite H. eexists. split; [reflexivity|]. simpl.
    split; [reflexivity|]. split; [reflexivity|]. split; [reflexivity|].
    unfold meta_setdefault. split; [|split].
    + destruct (dict_get (resp_meta resp) "version") eqn:E; simpl.
      * exact E.
      * rewrite DispatchProofs.dict_get_set. reflexivity.
    + intros k Hk. destruct (dict_get (resp_meta resp) "version") eqn:E; simpl; [reflexivity|].
      rewrite DispatchProofs.dict_get_set. destruct (String.eqb_spec k "version"); [congruence|].
      reflexivity.
    + destruct dep; [|rewrite app_nil_r]; reflexivity.
Qed.

Lemma loaded_wf reg : Loaded reg -> registry_wf reg.
Proof.
  induction 1 as [|reg p s id m c reg' Hl IH Hp Hdef].
  - split; [constructor | intros k c []].
  - exact (ExcProofs.define_class_wf reg p s id m c reg' IH Hp Hdef).
Qed.

Lemma code_key_entry doc kv : code_key (exception_entry doc kv) = fst kv.
Proof. reflexivity. Qed.

Lemma code_key_leb_total (a b : Dict Value) :
  str_leb (code_key a) (code_key b) = false -> str_leb (code_key b) (code_key a) = true.
Proof. apply ListingProofs.str_leb_total. Qed.

(** [Dispatcher.list_exceptions] over a registry built by class definitions:
    entries sorted by code, one per registered class, codes distinct, each
    entry the code, message and description of its class. *)
Theorem list_exceptions_catalog doc reg (H : Loaded reg) :
  Sorted (fun a b => str_leb (code_key a) (code_key b) = true) (list_exceptions doc reg) /\
  Permutation (list_exceptions doc reg) (map (exception_entry doc) reg) /\
  NoDup (map code_key (list_exceptions doc reg)) /\
  (forall k c, dict_get reg k = Some c -> In (exception_entry doc (k, c)) (list_exceptions doc reg)) /\
  (forall en, In en (list_exceptions doc reg) ->
     exists c, dict_get reg (code_key en) = Some c /\ cls_code c = code_key en /\
               en = exception_entry doc (code_key en, c)).
Proof.
  destruct (loaded_wf reg H) as [Hnd Hin].
  assert (Hp : Permutation (list_exceptions doc reg) (map (exception_entry doc) reg))
    by apply SortProofs.sort_by_perm.
  split; [apply (SortProofs.sort_by_sorted _ code_key_leb_total)|].
  split; [exact Hp|]. split; [|split].
  - apply (Permutation_NoDup (Permutation_map code_key (Permutation_sym Hp))).
    rewrite map_map. erewrite map_ext; [exact Hnd|]. intros kv. apply code_key_entry.
  - intros k c Hg. apply (Permutation_in _ (Permutation_sym Hp)). apply in_map.
    exact (ExcProofs.dict_get_in reg k c Hg).
  - intros en Hen. apply (Permutation_in _ Hp) in Hen.
    apply in_map_iff in Hen as [[k c] [<- Hkc]]. rewrite code_key_entry. simpl.
    exists c. split; [exact (DispatchProofs.dict_get_nodup_in reg k c Hnd Hkc)|].
    split; [symmetry; exact (proj1 (Hin k c Hkc))|reflexivity].
Qed.

(** [BaseExc.__init__]: the assertion fails exactly when no non-empty message
    is given and the class has no message; it raises nothing else; the stored
    message is the given non-empty one, else the class message. *)
Theorem exc_init_message_required c m d :
  (exc_init c m d = Raise assertion_error <->
     (m = None \/ m = Some "") /\ cls_message c = None) /\
  (forall e, exc_init c m d = Raise e -> e = assertion_error) /\
  (forall s, m = Some s -> s <> "" -> exc_init c m d = Ok (ECoded c (Some s) d)) /\
  ((m = None \/ m = Some "") -> forall s, cls_message c = Some s ->
     exc_init c m d = Ok (ECoded c (Some s) d)).
Proof.
  unfold exc_init, py_or. split; [|split; [|split]].
  - split.
    + destruct m as [s|].
      * destruct (String.eqb_spec s "") as [->|Hne].
        -- destruct (cls_message c); [discriminate|]. intros _. split; [right|]; reflexivity.
        -- discriminate.
      * destruct (cls_message c); [discriminate|]. intros _. split; [left|]; reflexivity.
    + intros [[-> | ->] ->]; reflexivity.
  - intros e. destruct m as [s|]; [destruct (String.eqb s "")|];
      destruct (cls_message c); try discriminate; intros H; injection H as <-; reflexivity.
  - intros s -> Hne. destruct (String.eqb_spec s ""); [contradiction|reflexivity].
  - intros [-> | ->] s Hs; rewrite Hs; reflexivity.
Qed.

Lemma in_strings_existsb k l : In k l <-> existsb (String.eqb k) l = true.
Proof.
  rewrite existsb_exists. split.
  - intros H. exists k. split; [exact H | apply String.eqb_refl].
  - intros [x [Hx Hk]]. apply String.eqb_eq in Hk. subst x. exact Hx.
Qed.

(** Among the builtin classes, exactly [warning], [error], [warning.rpc] and
    [error.rpc] cannot be instantiated without a message. *)
Theorem builtin_message_required k c d :
  dict_get builtin_registry k = Some c ->
  (exc_init c None d = Raise assertion_error <->
   In k ["warning"; "error"; "warning.rpc"; "error.rpc"]).
Proof.
  intros Hg. apply ExcProofs.dict_get_in in Hg. rewrite in_strings_existsb.
  unfold builtin_registry in Hg. vm_compute in Hg.
  repeat (destruct Hg as [Hg|Hg]; [injection Hg as <- <-; vm_compute;
                                  split; intros Hx; first [reflexivity | discriminate] |]).
  contradiction.
Qed.





Fixpoint load_parents_ok (reg : Registry)
    (decls : list (option ExcClass * string * nat * option string)) : Prop :=
  match decls with
  | [] => True
  | (p, s, id, m) :: rest =>
      parent_ok reg p /\
      match define_class reg p s id m with
      | Ok (_, reg') => load_parents_ok reg' rest
      | Raise _ => True
      end
  end.

Lemma load_loaded reg decls r :
  Loaded reg -> load_parents_ok reg decls -> load reg decls = Ok r -> Loaded r.
Proof.
  revert reg. induction decls as [|[[[p s] id] m] decls IH]; intros reg Hl Hp Hload; simpl in *.
  - injection Hload as <-. exact Hl.
  - destruct Hp as [Hp Hrest]. destruct (define_class reg p s id m) as [[c reg']|e] eqn:Ed; [|discriminate].
    exact (IH reg' (loaded_define reg p s id m c reg' Hl Hp Ed) Hrest Hload).
Qed.

Lemma builtin_loaded : Loaded builtin_registry.
Proof.
  unfold builtin_registry. destruct (load [] builtin_decls) as [r|e] eqn:E; [|discriminate E].
  apply (load_loaded [] builtin_decls r loaded_empty); [|exact E].
  vm_compute. repeat split.
Qed.

Lemma iter_methods_namespaces_witness :
  let md := mkMethodDef "nested.get_nothing"
              (mkHandlerDef get_nothing_fn (plain_info true (RaisesTuple [])) "") [foo_ns; nested_ns] in
  In md (iter_methods app_ns [] "") /\
  exists path, md_namespaces md = app [] path /\
    Forall (fun c => ns_enabled c = true /\ ns_is_dispatcher c = false) path.
Proof.
  intros md. assert (H : In md (iter_methods app_ns [] "")) by (simpl; auto 10).
  split; [exact H | exact (iter_methods_namespaces app_ns [] "" md H)].
Defined.

Lemma iter_methods_skips_witness :
  public "_nested" = false /\
  iter_methods (mkNs true false (app [("nested", ANamespace nested_ns)] [("_nested", ANamespace nested_ns)])) [] "" =
  iter_methods (mkNs true false (app [("nested", ANamespace nested_ns)] [])) [] "".
Proof.
  split; [reflexivity|]. apply iter_methods_skips. left. reflexivity.
Defined.

Lemma list_exceptions_catalog_witness :
  Loaded builtin_registry /\
  NoDup (map code_key (list_exceptions (fun _ => "") builtin_registry)).
Proof.
  split; [exact builtin_loaded|].
  exact (proj1 (proj2 (proj2 (list_exceptions_catalog (fun _ => "") builtin_registry builtin_loaded)))).
Defined.

Lemma builtin_message_required_witness :
  dict_get builtin_registry "error.rpc" = Some rpc_error /\
  exc_init rpc_error None [] = Raise assertion_error.
Proof.
  assert (Hg : dict_get builtin_registry "error.rpc" = Some rpc_error) by (vm_compute; reflexivity).
  split; [exact Hg|]. apply (builtin_message_required "error.rpc" rpc_error [] Hg).
  right. right. right. left. reflexivity.
Defined.


End ExtraProofs.

(* ------------------------------------------------------------------------- *)
(** * Proofs: serializer round trips                                          *)
(* ------------------------------------------------------------------------- *)

Module SerializerProofs.
Import Serializer.
Local Open Scope Z_scope.

Lemma c_int_small z : -2147483648 <= z <= 2147483647 -> c_int (PInt z) = Ok z.
Proof. intros H. unfold c_int. destruct H as [H1 H2]. apply Z.leb_le in H1. apply Z.leb_le in H2. now rewrite H1, H2. Qed.

Lemma check_date_bounds y m d : check_date y m d = true ->
  1 <= y <= 9999 /\ 1 <= m <= 12 /\ 1 <= d <= days_in_month y m.
Proof. unfold check_date, MINYEAR, MAXYEAR. intros H. repeat rewrite andb_true_iff in H. rewrite !Z.leb_le in H. lia. Qed.

Lemma check_time_bounds hh mi s us : check_time hh mi s us = true ->
  0 <= hh <= 23 /\ 0 <= mi <= 59 /\ 0 <= s <= 59 /\ 0 <= us <= 999999.
Proof. unfold check_time. intros H. repeat rewrite andb_true_iff in H. rewrite !Z.leb_le in H. lia. Qed.

Lemma days_in_month_bounds y m : 28 <= days_in_month y m <= 31.
Proof. unfold days_in_month. destruct (Z.eqb m 2), (is_leap y), (Z.eqb m 4 || Z.eqb m 6 || Z.eqb m 9 || Z.eqb m 11); lia. Qed.

Lemma reload_datetime_naive y m d hh mi s us :
  check_date y m d = true -> check_time hh mi s us = true ->
  reload (PDateTime y m d hh mi s us None) = Ok (PDateTime y m d hh mi s us None).
Proof.
  intros Hd Ht.
  pose proof (check_date_bounds _ _ _ Hd). pose proof (check_time_bounds _ _ _ _ Ht).
  pose proof (days_in_month_bounds y m).
  cbn -[c_int check_date check_time].
  unfold py_datetime; cbn [c_ints].
  rewrite !c_int_small by lia. now rewrite Hd, Ht.
Qed.

Lemma dby_succ y :
  days_before_year (y + 1) = days_before_year y + 365 + (if is_leap y then 1 else 0).
Proof.
  unfold days_before_year, is_leap. replace (y + 1 - 1) with y by lia.
  pose proof (Z.div_mod y 4 ltac:(lia)). pose proof (Z.mod_pos_bound y 4 ltac:(lia)).
  pose proof (Z.div_mod (y - 1) 4 ltac:(lia)). pose proof (Z.mod_pos_bound (y - 1) 4 ltac:(lia)).
  pose proof (Z.div_mod y 100 ltac:(lia)). pose proof (Z.mod_pos_bound y 100 ltac:(lia)).
  pose proof (Z.div_mod (y - 1) 100 ltac:(lia)). pose proof (Z.mod_pos_bound (y - 1) 100 ltac:(lia)).
  pose proof (Z.div_mod y 400 ltac:(lia)). pose proof (Z.mod_pos_bound y 400 ltac:(lia)).
  pose proof (Z.div_mod (y - 1) 400 ltac:(lia)). pose proof (Z.mod_pos_bound (y - 1) 400 ltac:(lia)).
  destruct (Z.eqb_spec (y mod 4) 0), (Z.eqb_spec (y mod 100) 0), (Z.eqb_spec (y mod 400) 0);
    simpl; lia.
Qed.

Lemma dbm_succ y m : 1 <= m <= 11 ->
  days_before_month y m + days_in_month y m = days_before_month y (m + 1).
Proof.
  intros Hm. unfold days_before_month, days_in_month.
  assert (m = 1 \/ m = 2 \/ m = 3 \/ m = 4 \/ m = 5 \/ m = 6 \/ m = 7 \/ m = 8 \/ m = 9 \/
          m = 10 \/ m = 11) as Hc by lia.
  destruct (is_leap y); repeat destruct Hc as [->|Hc]; try (subst m); reflexivity.
Qed.

Lemma dbm_last y : days_before_month y 12 + 31 = 365 + (if is_leap y then 1 else 0).
Proof. unfold days_before_month. destruct (is_leap y); reflexivity. Qed.

Lemma dim_last y : days_in_month y 12 = 31.
Proof. reflexivity. Qed.

Lemma dbm_first y : days_before_month y 1 = 0.
Proof. reflexivity. Qed.

(** Serializer round trip of an aware datetime (offset under a day, whole
    minutes): the result is the same instant in UTC with a valid date and time,
    or OverflowError when the UTC year leaves 1..9999. *)
Theorem reload_datetime_aware y m d hh mi s us k :
  check_date y m d = true -> check_time hh mi s us = true -> -1440 < k < 1440 ->
  exists y' m' d' hh' mi',
    wall_minutes y' m' d' hh' mi' = wall_minutes y m d hh mi - k /\
    1 <= m' <= 12 /\ 1 <= d' <= days_in_month y' m' /\ check_time hh' mi' s us = true /\
    reload (PDateTime y m d hh mi s us (Some k)) =
      if (1 <=? y') && (y' <=? 9999) then Ok (PDateTime y' m' d' hh' mi' s us (Some 0))
      else Raise overflow_error.
Proof.
  intros Hd Ht Hk.
  pose proof (check_date_bounds _ _ _ Hd) as Bd. pose proof (check_time_bounds _ _ _ _ Ht) as Bt.
  pose proof (days_in_month_bounds y m) as Bm.
  unfold reload; cbn -[c_int check_date check_time py_timedelta_minutes sub_timedelta].
  unfold py_datetime; cbn [c_ints]. rewrite !c_int_small by lia. rewrite Hd, Ht. cbn [andb].
  unfold py_timedelta_minutes.
  pose proof (Z.div_mod k 1440 ltac:(lia)). pose proof (Z.mod_pos_bound k 1440 ltac:(lia)).
  replace (999999999 <? Z.abs (k/1440)) with false by (symmetry; apply Z.ltb_ge; lia).
  unfold sub_timedelta, normalize_datetime, normalize_pair. cbn [fst snd].
  rewrite (Z.div_small us) by lia. rewrite (Z.mod_small us) by lia.
  replace (s - k mod 1440 * 60 + 0) with (s + (- (k mod 1440)) * 60) by ring.
  rewrite Z.div_add, Z.mod_add by lia. rewrite (Z.div_small s), (Z.mod_small s) by lia.
  set (r := k mod 1440) in *. set (q := k / 1440) in *.
  set (x := mi + (0 + - r)).
  pose proof (Z.div_mod x 60 ltac:(lia)). pose proof (Z.mod_pos_bound x 60 ltac:(lia)).
  set (h1 := hh + x / 60).
  pose proof (Z.div_mod h1 24 ltac:(lia)). pose proof (Z.mod_pos_bound h1 24 ltac:(lia)).
  set (d1 := d - q + h1 / 24).
  assert (Hd1 : d - 1 <= d1 <= d + 1) by lia.
  assert (Hw : d1 * 1440 + (h1 mod 24) * 60 + x mod 60 = d * 1440 + hh * 60 + mi - k) by lia.
  assert (Hct : check_time (h1 mod 24) (x mod 60) s us = true).
  { unfold check_time. rewrite !andb_true_iff, !Z.leb_le. lia. }
  clearbody r q x h1 d1.
  pose proof (dby_succ (y - 1)) as Hy1. replace (y - 1 + 1) with y in Hy1 by lia.
  pose proof (dby_succ y) as Hy2. pose proof (dbm_last (y - 1)). pose proof (dbm_last y).
  unfold normalize_date.
  destruct (Z.eq_dec d1 0) as [E0|N0].
  - replace (d1 <? 1) with true by (symmetry; apply Z.ltb_lt; lia).
    replace (d1 =? 0) with true by (symmetry; apply Z.eqb_eq; lia). cbn [orb].
    destruct (Z.ltb_spec 0 (m - 1)).
    + exists y, (m - 1), (days_in_month y (m - 1)), (h1 mod 24), (x mod 60).
      pose proof (dbm_succ y (m - 1) ltac:(lia)). replace (m - 1 + 1) with m in * by lia.
      pose proof (days_in_month_bounds y (m - 1)).
      repeat split; try lia.
      * unfold wall_minutes, ymd_to_ord. nia.
      * exact Hct.
      * unfold MINYEAR, MAXYEAR. cbn. destruct ((1 <=? y) && (y <=? 9999)); reflexivity.
    + exists (y - 1), 12, 31, (h1 mod 24), (x mod 60).
      pose proof (dim_last (y - 1)).
      repeat split; try lia.
      * unfold wall_minutes, ymd_to_ord. replace m with 1 by lia. rewrite dbm_first. nia.
      * exact Hct.
      * unfold MINYEAR, MAXYEAR. cbn. destruct ((1 <=? y - 1) && (y - 1 <=? 9999)); reflexivity.
  - destruct (Z.eq_dec d1 (days_in_month y m + 1)) as [E1|N1].
    + replace (d1 <? 1) with false by (symmetry; apply Z.ltb_ge; lia).
      replace (days_in_month y m <? d1) with true by (symmetry; apply Z.ltb_lt; lia).
      replace (d1 =? 0) with false by (symmetry; apply Z.eqb_neq; lia).
      replace (d1 =? days_in_month y m + 1) with true by (symmetry; apply Z.eqb_eq; lia).
      cbn [orb].
      destruct (Z.ltb_spec 12 (m + 1)).
      * exists (y + 1), 1, 1, (h1 mod 24), (x mod 60).
        repeat split; try lia.
        -- unfold wall_minutes, ymd_to_ord. rewrite dbm_first. replace m with 12 in * by lia.
           rewrite dim_last in *. nia.
        -- pose proof (days_in_month_bounds (y + 1) 1). lia.
        -- exact Hct.
        -- unfold MINYEAR, MAXYEAR. cbn. destruct ((1 <=? y + 1) && (y + 1 <=? 9999)); reflexivity.
      * exists y, (m + 1), 1, (h1 mod 24), (x mod 60).
        pose proof (dbm_succ y m ltac:(lia)).
        repeat split; try lia.
        -- unfold wall_minutes, ymd_to_ord. nia.
        -- pose proof (days_in_month_bounds y (m + 1)). lia.
        -- exact Hct.
        -- unfold MINYEAR, MAXYEAR. cbn. destruct ((1 <=? y) && (y <=? 9999)); reflexivity.
    + replace (d1 <? 1) with false by (symmetry; apply Z.ltb_ge; lia).
      replace (days_in_month y m <? d1) with false by (symmetry; apply Z.ltb_ge; lia).
      cbn [orb].
      exists y, m, d1, (h1 mod 24), (x mod 60).
      repeat split; try lia.
      -- unfold wall_minutes, ymd_to_ord. nia.
      -- exact Hct.
      -- unfold MINYEAR, MAXYEAR. cbn. destruct ((1 <=? y) && (y <=? 9999)); reflexivity.
Qed.
(** Serializer round trip of naive values: a valid date and a naive datetime
    come back equal; a time comes back with its fields but without tzinfo. *)
Theorem reload_naive_roundtrip y m d hh mi s us tz :
  (check_date y m d = true -> reload (PDate y m d) = Ok (PDate y m d)) /\
  (check_time hh mi s us = true -> reload (PTime hh mi s us tz) = Ok (PTime hh mi s us None)) /\
  (check_date y m d = true -> check_time hh mi s us = true ->
     reload (PDateTime y m d hh mi s us None) = Ok (PDateTime y m d hh mi s us None)).
Proof.
  split; [|split; [|exact (reload_datetime_naive y m d hh mi s us)]].
  - intros Hd. pose proof (check_date_bounds _ _ _ Hd). pose proof (days_in_month_bounds y m).
    cbn -[c_int check_date]. unfold py_date; cbn [c_ints].
    rewrite !c_int_small by lia. now rewrite Hd.
  - intros Ht. pose proof (check_time_bounds _ _ _ _ Ht).
    cbn -[c_int check_time]. unfold py_time; cbn [c_ints].
    rewrite !c_int_small by lia. now rewrite Ht.
Qed.

(** [Serializer.after_load]: a JSON object whose [_type] names a loader is
    never returned as a dict: the result is a date, time or datetime, or an
    error. *)
Theorem after_load_loader_result obj name r :
  dict_get obj "_type" = Some (PStr name) -> In name ["datetime"; "date"; "time"] ->
  after_load obj = Ok r -> is_temporal r = true.
Proof.
  intros Ht Hn Hr. unfold after_load in Hr. rewrite Ht in Hr.
  destruct Hn as [<-|[<-|[<-|[]]]]; simpl in Hr.
  - unfold load_datetime in Hr.
    destruct (bind_args _ _) as [args|]; [|discriminate].
    destruct args as [|y [|m [|d [|hh [|mi [|s [|us [|u [|]]]]]]]]]; try discriminate.
    destruct u; unfold py_datetime in Hr;
      try (destruct (c_ints _) as [[|? [|? [|? [|? [|? [|? [|? [|]]]]]]]]|]; try discriminate;
           destruct (_ && _); [|discriminate]; injection Hr as <-; reflexivity).
    all: destruct (c_ints _) as [[|? [|? [|? [|? [|? [|? [|? [|]]]]]]]]|]; try discriminate;
         destruct (_ && _); [|discriminate];
         destruct (py_timedelta_minutes _) as [td|]; [|discriminate];
         unfold sub_timedelta in Hr;
         destruct (normalize_datetime _ _ _ _ _ _ _) as [[[[[[[? ?] ?] ?] ?] ?] ?]|]; try discriminate;
         injection Hr as <-; reflexivity.
  - unfold load_date, py_date in Hr.
    destruct (bind_args _ _) as [args|]; [|discriminate].
    destruct (c_ints args) as [[|? [|? [|? [|]]]]|]; try discriminate.
    destruct (check_date _ _ _); [|discriminate]. injection Hr as <-. reflexivity.
  - unfold load_time, py_time in Hr.
    destruct (bind_args _ _) as [args|]; [|discriminate].
    destruct (c_ints args) as [[|? [|? [|? [|? [|]]]]]|]; try discriminate.
    destruct (check_time _ _ _ _); [|discriminate]. injection Hr as <-. reflexivity.
Qed.

Lemma reload_datetime_aware_witness :
  (exists y' m' d' hh' mi',
    wall_minutes y' m' d' hh' mi' = wall_minutes 2020 3 1 0 30 - 60 /\
    1 <= m' <= 12 /\ 1 <= d' <= days_in_month y' m' /\ check_time hh' mi' 5 7 = true /\
    reload (PDateTime 2020 3 1 0 30 5 7 (Some 60)) =
      if (1 <=? y') && (y' <=? 9999) then Ok (PDateTime y' m' d' hh' mi' 5 7 (Some 0))
      else Raise overflow_error) /\
  reload (PDateTime 2020 3 1 0 30 5 7 (Some 60)) = Ok (PDateTime 2020 2 29 23 30 5 7 (Some 0)).
Proof.
  split.
  - apply reload_datetime_aware; [reflexivity | reflexivity | lia].
  - vm_compute. reflexivity.
Defined.

Lemma after_load_loader_result_witness :
  let obj := [("_type", PStr "date"); ("year", PInt 2020); ("month", PInt 2); ("day", PInt 29)] in
  after_load obj = Ok (PDate 2020 2 29) /\ is_temporal (PDate 2020 2 29) = true.
Proof.
  intros obj. assert (H : after_load obj = Ok (PDate 2020 2 29)) by (vm_compute; reflexivity).
  split; [exact H|]. apply (after_load_loader_result obj "date"); [reflexivity | simpl; auto | exact H].
Defined.

End SerializerProofs.
